(** * The date-windowed import scheduler of [carepoint.backend]

    A shallow embedding of
    [connector_carepoint/models/carepoint_backend.py]: the boundary
    generator [__iter_rrule], the dispatch helper [__import_from_date],
    the scheduling pass [_import_from_date], the bypass entry points
    [resync_all] and [force_sync], and the constraint
    [_check_default_for_company].

    Naive [datetime] values are records compared field by field, as the
    standard library compares them; stored Datetime fields are the
    strings the ORM keeps; the backend table is a finite map from record
    ids to rows; effects (the clock, the job queue, the direct metadata
    import, the ORM write) are threaded through a state-and-exception
    monad whose state persists up to the point an exception is raised. *)

From Stdlib Require Import ZArith List Bool Lia Sorted Ascii String.
From stdpp Require Import gmap strings list.

Local Open Scope Z_scope.

(** ** Naive datetimes *)

Module datetime.

Record t : Set := mk {
  year : Z; month : Z; day : Z;
  hour : Z; minute : Z; second : Z; microsecond : Z
}.

Definition MINYEAR : Z := 1.
Definition MAXYEAR : Z := 9999.
Definition MAXORDINAL : Z := 3652059.

(** [_cmp] on two tuples of integers: the first differing position
    decides. *)
Fixpoint lex_compare (xs ys : list Z) : comparison :=
  match xs, ys with
  | [], [] => Eq
  | [], _ :: _ => Lt
  | _ :: _, [] => Gt
  | x :: xs', y :: ys' =>
      match x ?= y with
      | Eq => lex_compare xs' ys'
      | c => c
      end
  end.

Definition timetuple (d : t) : list Z :=
  [year d; month d; day d; hour d; minute d; second d; microsecond d].

Definition compare (a b : t) : comparison :=
  lex_compare (timetuple a) (timetuple b).

Definition eqb (a b : t) : bool :=
  match compare a b with Eq => true | _ => false end.
Definition ltb (a b : t) : bool :=
  match compare a b with Lt => true | _ => false end.
Definition leb (a b : t) : bool :=
  match compare a b with Gt => false | _ => true end.

Definition lt (a b : t) : Prop := compare a b = Lt.
Definition le (a b : t) : Prop := compare a b <> Gt.

(** *** The proleptic Gregorian calendar of the standard library *)

Definition is_leap (y : Z) : bool :=
  (y mod 4 =? 0) && (negb (y mod 100 =? 0) || (y mod 400 =? 0)).

Definition DAYS_IN_MONTH (m : Z) : Z :=
  match m with
  | 1 => 31 | 2 => 28 | 3 => 31 | 4 => 30 | 5 => 31 | 6 => 30
  | 7 => 31 | 8 => 31 | 9 => 30 | 10 => 31 | 11 => 30 | 12 => 31
  | _ => -1
  end.

Definition DAYS_BEFORE_MONTH (m : Z) : Z :=
  match m with
  | 1 => 0 | 2 => 31 | 3 => 59 | 4 => 90 | 5 => 120 | 6 => 151
  | 7 => 181 | 8 => 212 | 9 => 243 | 10 => 273 | 11 => 304 | 12 => 334
  | _ => -1
  end.

Definition days_before_year (y : Z) : Z :=
  let y1 := y - 1 in
  y1 * 365 + y1 / 4 - y1 / 100 + y1 / 400.

Definition days_in_month (y m : Z) : Z :=
  if (m =? 2) && is_leap y then 29 else DAYS_IN_MONTH m.

Definition days_before_month (y m : Z) : Z :=
  DAYS_BEFORE_MONTH m + (if (2 <? m) && is_leap y then 1 else 0).

Definition ymd2ord (y m d : Z) : Z :=
  days_before_year y + days_before_month y m + d.

Definition DI400Y : Z := 146097.
Definition DI100Y : Z := 36524.
Definition DI4Y : Z := 1461.

(** [_ord2ymd]: the inverse of [ymd2ord], by the 400/100/4/1-year
    cycles and a month estimate that is corrected when too large. *)
Definition ord2ymd (n : Z) : Z * Z * Z :=
  let n := n - 1 in
  let n400 := n / DI400Y in
  let n := n mod DI400Y in
  let year := n400 * 400 + 1 in
  let n100 := n / DI100Y in
  let n := n mod DI100Y in
  let n4 := n / DI4Y in
  let n := n mod DI4Y in
  let n1 := n / 365 in
  let n := n mod 365 in
  let year := year + n100 * 100 + n4 * 4 + n1 in
  if (n1 =? 4) || (n100 =? 4) then (year - 1, 12, 31)
  else
    let leapyear := (n1 =? 3) && (negb (n4 =? 24) || (n100 =? 3)) in
    let month := Z.shiftr (n + 50) 5 in
    let preceding :=
      DAYS_BEFORE_MONTH month + (if (2 <? month) && leapyear then 1 else 0) in
    if n <? preceding then
      let month := month - 1 in
      let preceding :=
        preceding
        - (DAYS_IN_MONTH month + (if (month =? 2) && leapyear then 1 else 0)) in
      (year, month, n - preceding + 1)
    else (year, month, n - preceding + 1).

(** The checks of the [datetime] constructor. *)
Definition valid (d : t) : bool :=
  (MINYEAR <=? year d) && (year d <=? MAXYEAR)
  && (1 <=? month d) && (month d <=? 12)
  && (1 <=? day d) && (day d <=? days_in_month (year d) (month d))
  && (0 <=? hour d) && (hour d <? 24)
  && (0 <=? minute d) && (minute d <? 60)
  && (0 <=? second d) && (second d <? 60)
  && (0 <=? microsecond d) && (microsecond d <? 1000000).

Definition toordinal (d : t) : Z := ymd2ord (year d) (month d) (day d).

(** [d + timedelta(seconds=delta)]: the time of day and the ordinal are
    turned into a normalised (days, seconds) pair, the shift is added,
    and the date is rebuilt from the ordinal; [None] is the
    [OverflowError] of a result outside years 1..9999. *)
Definition add_seconds (d : t) (delta : Z) : option t :=
  let total := hour d * 3600 + minute d * 60 + second d + delta in
  let days := toordinal d + total / 86400 in
  let secs := total mod 86400 in
  if (0 <? days) && (days <=? MAXORDINAL) then
    let '(y, m, dd) := ord2ymd days in
    Some (mk y m dd (secs / 3600) ((secs mod 3600) / 60) (secs mod 60)
            (microsecond d))
  else None.

(** [d.replace(microsecond=0)]. *)
Definition replace_microsecond0 (d : t) : t :=
  mk (year d) (month d) (day d) (hour d) (minute d) (second d) 0.

End datetime.

Abbreviation datetime := datetime.t.

(** ** Stored Datetime fields: [fields.Datetime.to_string] / [from_string] *)

Module Datetime.

Definition digit (n : Z) : ascii := ascii_of_N (48 + Z.to_N n).

Definition zfill2 (n : Z) : string :=
  String (digit (n / 10)) (String (digit (n mod 10)) EmptyString).

Definition zfill4 (n : Z) : string :=
  String (digit (n / 1000)) (String (digit (n / 100 mod 10)) (zfill2 (n mod 100))).

(** [value.strftime('%Y-%m-%d %H:%M:%S')]; microseconds are not
    printed.  The interpreter the module runs on refuses years before
    1900 with a [ValueError], which is the [None] here. *)
Definition to_string (value : datetime) : option string :=
  if datetime.year value <? 1900 then None
  else Some (zfill4 (datetime.year value) +:+ "-"
             +:+ zfill2 (datetime.month value) +:+ "-"
             +:+ zfill2 (datetime.day value) +:+ " "
             +:+ zfill2 (datetime.hour value) +:+ ":"
             +:+ zfill2 (datetime.minute value) +:+ ":"
             +:+ zfill2 (datetime.second value)).

Definition digit_val (c : ascii) : option Z :=
  let n := Z.of_N (N_of_ascii c) in
  if (48 <=? n) && (n <=? 57) then Some (n - 48) else None.

Fixpoint number_from (acc : Z) (s : string) : option Z :=
  match s with
  | EmptyString => Some acc
  | String c s' =>
      match digit_val c with
      | Some v => number_from (acc * 10 + v) s'
      | None => None
      end
  end.

(** A field of [len] digits at offset [pos]. *)
Definition field (pos len : nat) (s : string) : option Z :=
  let piece := substring pos len s in
  if Nat.eqb (String.length piece) len then number_from 0 piece else None.

Definition sep (pos : nat) (c : ascii) (s : string) : bool :=
  match String.get pos s with
  | Some c' => Ascii.eqb c c'
  | None => false
  end.

(** [datetime.strptime(value, '%Y-%m-%d %H:%M:%S')] on the fixed-width
    form the ORM stores, followed by the range checks of the
    [datetime] constructor; anything else is a [ValueError] ([None]). *)
Definition strptime (value : string) : option datetime :=
  if Nat.eqb (String.length value) 19
     && sep 4 "-" value && sep 7 "-" value && sep 10 " " value
     && sep 13 ":" value && sep 16 ":" value
  then
    match field 0 4 value, field 5 2 value, field 8 2 value,
          field 11 2 value, field 14 2 value, field 17 2 value with
    | Some y, Some m, Some d, Some hh, Some mm, Some ss =>
        let r := datetime.mk y m d hh mm ss 0 in
        if datetime.valid r then Some r else None
    | _, _, _, _, _, _ => None
    end
  else None.

(** [from_string]: the value is cut to 19 characters and a bare date
    gets midnight appended before parsing. *)
Definition from_string (value : string) : option datetime :=
  let value := substring 0 19 value in
  let value :=
    if Nat.eqb (String.length value) 10 then value +:+ " 00:00:00" else value in
  strptime value.

End Datetime.

(** ** [dateutil.rrule] at monthly frequency *)

Module rrule.

(** The candidate of the month numbered [k] (months counted from year
    0): with no [bymonthday] given the rule takes the day of [dtstart],
    with no [byhour] its hour, and [byminute=0, bysecond=0] fix the
    rest.  A month that lacks that day has no candidate. *)
Definition candidate (dtstart : datetime) (k : Z) : option datetime :=
  let y := k / 12 in
  let m := k mod 12 + 1 in
  if datetime.day dtstart <=? datetime.days_in_month y m
  then Some (datetime.mk y m (datetime.day dtstart) (datetime.hour dtstart) 0 0 0)
  else None.

Definition month_number (d : datetime) : Z :=
  datetime.year d * 12 + (datetime.month d - 1).

(** The months the rule's iterator visits from [dtstart] on: it stops
    once the year passes [MAXYEAR]. *)
Definition months_left (dtstart : datetime) : nat :=
  Z.to_nat (datetime.MAXYEAR * 12 + 12 - month_number dtstart).

(** [rule.between(after, before, inc=False)] run over the rule's
    iterator: occurrences earlier than [dtstart] (microseconds dropped)
    are not generated, the scan breaks at the first occurrence that is
    [>= before], and collecting starts at the first one [> after]. *)
Fixpoint between_loop (fuel : nat) (dtstart after before : datetime)
         (k : Z) (started : bool) : list datetime :=
  match fuel with
  | O => []
  | S fuel' =>
      match candidate dtstart k with
      | Some i =>
          if datetime.ltb i (datetime.replace_microsecond0 dtstart)
          then between_loop fuel' dtstart after before (k + 1) started
          else if datetime.leb before i then []
          else if started then
            i :: between_loop fuel' dtstart after before (k + 1) true
          else if datetime.ltb after i then
            i :: between_loop fuel' dtstart after before (k + 1) true
          else between_loop fuel' dtstart after before (k + 1) false
      | None => between_loop fuel' dtstart after before (k + 1) started
      end
  end.

Definition between (dtstart after before : datetime) : list datetime :=
  between_loop (months_left dtstart) dtstart after before
               (month_number dtstart) false.

End rrule.

(** ** The [carepoint.backend] rows *)

(** The nine watermark columns [import_<X>_from_date]; the scheduler is
    handed one of their names and reads and writes the column through
    it. *)
Module from_date_field.

Inductive t : Set :=
| items | patients | physicians | prescriptions | sales
| addresses | phones | pickings | invoices.

Definition name (f : t) : string :=
  match f with
  | items => "import_items_from_date"
  | patients => "import_patients_from_date"
  | physicians => "import_physicians_from_date"
  | prescriptions => "import_prescriptions_from_date"
  | sales => "import_sales_from_date"
  | addresses => "import_addresses_from_date"
  | phones => "import_phones_from_date"
  | pickings => "import_pickings_from_date"
  | invoices => "import_invoices_from_date"
  end.

Definition eqb (f g : t) : bool :=
  match f, g with
  | items, items | patients, patients | physicians, physicians
  | prescriptions, prescriptions | sales, sales | addresses, addresses
  | phones, phones | pickings, pickings | invoices, invoices => true
  | _, _ => false
  end.

End from_date_field.

(** The columns the scheduler and the constraint read or write.  An
    unset Datetime column reads as [False], the [None] here. *)
Record backend : Set := {
  date_data_start : string;
  import_inverse : bool;
  import_items_from_date : option string;
  import_patients_from_date : option string;
  import_physicians_from_date : option string;
  import_prescriptions_from_date : option string;
  import_sales_from_date : option string;
  import_addresses_from_date : option string;
  import_phones_from_date : option string;
  import_pickings_from_date : option string;
  import_invoices_from_date : option string;
  company_id : option Z;
  is_default : bool;
  active : bool
}.

(** [getattr(backend, from_date_field)]. *)
Definition getattr (b : backend) (f : from_date_field.t) : option string :=
  match f with
  | from_date_field.items => import_items_from_date b
  | from_date_field.patients => import_patients_from_date b
  | from_date_field.physicians => import_physicians_from_date b
  | from_date_field.prescriptions => import_prescriptions_from_date b
  | from_date_field.sales => import_sales_from_date b
  | from_date_field.addresses => import_addresses_from_date b
  | from_date_field.phones => import_phones_from_date b
  | from_date_field.pickings => import_pickings_from_date b
  | from_date_field.invoices => import_invoices_from_date b
  end.

(** One entry of the dictionary handed to [write]. *)
Inductive assignment : Set :=
| set_from_date (f : from_date_field.t) (v : option string)
| set_date_data_start (v : string)
| set_import_inverse (v : bool)
| set_company_id (v : option Z)
| set_is_default (v : bool)
| set_active (v : bool).

(** The row after one entry of the dictionary is stored: the named
    column takes the value, every other column keeps its own. *)
Definition assign (a : assignment) (b : backend) : backend :=
  let column g :=
    match a with
    | set_from_date f v => if from_date_field.eqb f g then v else getattr b g
    | _ => getattr b g
    end in
  {| date_data_start :=
       match a with set_date_data_start v => v | _ => date_data_start b end;
     import_inverse :=
       match a with set_import_inverse v => v | _ => import_inverse b end;
     import_items_from_date := column from_date_field.items;
     import_patients_from_date := column from_date_field.patients;
     import_physicians_from_date := column from_date_field.physicians;
     import_prescriptions_from_date := column from_date_field.prescriptions;
     import_sales_from_date := column from_date_field.sales;
     import_addresses_from_date := column from_date_field.addresses;
     import_phones_from_date := column from_date_field.phones;
     import_pickings_from_date := column from_date_field.pickings;
     import_invoices_from_date := column from_date_field.invoices;
     company_id := match a with set_company_id v => v | _ => company_id b end;
     is_default := match a with set_is_default v => v | _ => is_default b end;
     active := match a with set_active v => v | _ => active b end |}.

(** The whole dictionary, entry by entry. *)
Definition assign_all (vals : list assignment) (b : backend) : backend :=
  fold_left (fun r a => assign a r) vals b.

(** ** Bindings of local records (for [resync_all]) *)

Record binding : Set := { backend_id : Z; carepoint_id : Z }.

(** A local record of a bound model with its [carepoint_bind_ids]. *)
Record local_record : Set := { record_id : Z; carepoint_bind_ids : list binding }.

(** ** Effects *)

Inductive exn : Set :=
| ValidationError (msg : string)
| MissingError (id : Z)
| ValueError
| OverflowError
| NameError (name : string)
| RemoteError (msg : string).

(** [{field: {'>=': start, '<=': end}}]. *)
Record filters : Set := { on_field : string; ge : datetime; le : datetime }.

Inductive call : Set :=
| import_batch (backend : Z) (flt : option filters)
| import_record (backend : Z) (remote_pk : Z) (force : bool).

Inductive event : Set :=
| direct (model : string) (c : call)
    (* self.env[model].<call>, run inline *)
| delay (model : string) (priority : Z) (c : call)
    (* self.env[model].delay(priority).<call>, handed to the job queue *)
| written (ids : list Z) (vals : list assignment).
    (* self.write(vals) reached the table *)

Record world : Type := {
  db : gmap Z backend;                       (* the carepoint.backend table *)
  tables : gmap string (list local_record);  (* the bound models' records *)
  journal : list event;                      (* effects so far, oldest first *)
  clock_reads : nat                          (* calls of datetime.now() so far *)
}.

Inductive outcome (A : Type) : Type :=
| Ok (a : A)
| Raise (e : exn).
Arguments Ok {A} a.
Arguments Raise {A} e.

Definition M (A : Type) : Type := world -> outcome A * world.

Definition ret {A} (a : A) : M A := fun w => (Ok a, w).
Definition raise {A} (e : exn) : M A := fun w => (Raise e, w).
Definition bind {A B} (m : M A) (k : A -> M B) : M B :=
  fun w =>
    match m w with
    | (Ok a, w') => k a w'
    | (Raise e, w') => (Raise e, w')
    end.

Notation "x <- m ;; k" := (bind m (fun x => k))
  (at level 100, m at next level, right associativity).
Notation "m ;; k" := (bind m (fun _ => k))
  (at level 100, right associativity).

(** [for x in xs: body(x)]. *)
Fixpoint for_each {A} (xs : list A) (body : A -> M unit) : M unit :=
  match xs with
  | [] => ret tt
  | x :: xs' => body x ;; for_each xs' body
  end.

Definition emit (e : event) : M unit :=
  fun w => (Ok tt, {| db := db w; tables := tables w;
                      journal := journal w ++ [e];
                      clock_reads := clock_reads w |}).

(** Reading a column of a record that is not in the table. *)
Definition browse (id : Z) : M backend :=
  fun w =>
    match db w !! id with
    | Some b => (Ok b, w)
    | None => (Raise (MissingError id), w)
    end.

(** ** The methods of [CarepointBackend] *)

Definition IMPORT_DELTA_BUFFER : Z := 30.  (* seconds *)

(** A leaf of a search domain over [carepoint.backend]. *)
Inductive leaf : Set :=
| company_id_eq (c : option Z)
| is_default_eq (v : bool)
| active_eq (v : bool).

Definition holds (l : leaf) (b : backend) : bool :=
  match l with
  | company_id_eq c => bool_decide (company_id b = c)
  | is_default_eq v => Bool.eqb (is_default b) v
  | active_eq v => Bool.eqb (active b) v
  end.

Definition on_active (l : leaf) : bool :=
  match l with active_eq _ => true | _ => false end.

(** The ORM's [_where_calc]: the model has an [active] column, so a
    domain that does not mention it is searched among active rows
    only. *)
Definition where_calc (domain : list leaf) : list leaf :=
  if existsb on_active domain then domain else active_eq true :: domain.

Definition selected (domain : list leaf) (table : gmap Z backend) : list (Z * backend) :=
  List.filter (fun row => forallb (fun l => holds l row.2) (where_calc domain))
              (map_to_list table).

(** [self.search(domain)]. *)
Definition search (domain : list leaf) : M (list Z) :=
  fun w => (Ok (map fst (selected domain (db w))), w).

(** [_check_default_for_company], the [@api.constrains('is_default',
    'company_id')] method. *)
Definition _check_default_for_company (self : list Z) : M unit :=
  for_each self (fun rec_id =>
    r <- browse rec_id ;;
    found <- search [company_id_eq (company_id r); is_default_eq true] ;;
    if (1 <? Z.of_nat (length found))
    then raise (ValidationError
                  "This company already has a default CarePoint connector.")
    else ret tt).

Definition constrains (a : assignment) : bool :=
  match a with
  | set_is_default _ | set_company_id _ => true
  | _ => false
  end.

Definition stored (self : list Z) (vals : list assignment) (table : gmap Z backend)
  : gmap Z backend :=
  foldr (fun id m => alter (assign_all vals) id m) table self.

Definition missing (self : list Z) (table : gmap Z backend) : option Z :=
  List.find (fun id => bool_decide (table !! id = None)) self.

(** The ORM's [self.write(vals)]: the rows of [self] take the values, the
    constraint methods whose fields are among the keys run on the updated
    rows, and a [ValidationError] rolls the transaction back, leaving the
    table as it was. *)
Definition write (self : list Z) (vals : list assignment) : M unit :=
  fun w =>
    match missing self (db w) with
    | Some id => (Raise (MissingError id), w)
    | None =>
        let w' := {| db := stored self vals (db w); tables := tables w;
                     journal := journal w ++ [written self vals];
                     clock_reads := clock_reads w |} in
        if existsb constrains vals then
          match _check_default_for_company self w' with
          | (Ok _, w'') => (Ok tt, w'')
          | (Raise e, _) => (Raise e, w)
          end
        else (Ok tt, w')
    end.

Section CarepointBackend.

(** The environment of a run: the successive answers of
    [datetime.now()], and whether the remote database fails a direct
    import, which may depend on everything done so far. *)
Variable now : nat -> datetime.
Variable remote_fault : list event -> string -> Z -> option exn.

(** [datetime.now()]. *)
Definition datetime_now : M datetime :=
  fun w => (Ok (now (clock_reads w)),
            {| db := db w; tables := tables w; journal := journal w;
               clock_reads := S (clock_reads w) |}).

(** [self.env[model].import_batch(backend)], run inline against the
    remote database. *)
Definition import_batch_now (model : string) (backend : Z) : M unit :=
  fun w =>
    match emit (direct model (import_batch backend None)) w with
    | (_, w') =>
        match remote_fault (journal w) model backend with
        | Some e => (Raise e, w')
        | None => (Ok tt, w')
        end
    end.

Definition synchronize_metadata (self : list Z) : M bool :=
  for_each self (fun backend =>
    for_each ["carepoint.carepoint.store"] (fun model =>
      import_batch_now model backend)) ;;
  ret true.

(** Used in each data import. *)
Definition check_carepoint_structure (self : list Z) : M bool :=
  synchronize_metadata self ;;
  ret true.

Definition __import_from_date (self : list Z) (model_name : string)
           (start end_ : datetime) (chg_date_field : string) (priority : Z)
  : M unit :=
  let '(start, end_) :=
    if datetime.ltb end_ start then (end_, start) else (start, end_) in
  for_each self (fun backend =>
    check_carepoint_structure [backend] ;;
    let flt := {| on_field := chg_date_field; ge := start; le := end_ |} in
    emit (delay model_name priority (import_batch backend (Some flt)))).

(** [__iter_rrule(start, end)] with its defaults [inc=True],
    [freq=rrule.MONTHLY], as the list of the values it yields. *)
Definition __iter_rrule (start end_ : datetime) (inc : bool) : list datetime :=
  (if inc then [start] else [])
  ++ rrule.between start start end_
  ++ (if inc then [end_] else []).

(** The loop [for dt in iter_dates] of [_import_from_date], with the
    loop-carried [from_date]. *)
Fixpoint walk_dates (backend : Z) (model add_date_field chg_date_field : string)
         (from_date : datetime) (iter_dates : list datetime) : M unit :=
  match iter_dates with
  | [] => ret tt
  | dt :: rest =>
      (if negb (datetime.eqb from_date dt) then
         __import_from_date [backend] model from_date dt add_date_field 10 ;;
         __import_from_date [backend] model from_date dt chg_date_field 10
       else ret tt) ;;
      walk_dates backend model add_date_field chg_date_field dt rest
  end.

Definition falsy (v : option string) : bool :=
  match v with
  | None => true
  | Some s => bool_decide (s = "")
  end.

(** The body of [for backend in self] in [_import_from_date]. *)
Definition import_backend_from_date (model : string) (from_date_field : from_date_field.t)
           (chg_date_field add_date_field : string)
           (import_start_time : datetime) (backend : Z) : M unit :=
  check_carepoint_structure [backend] ;;
  b <- browse backend ;;
  let from_date := getattr b from_date_field in
  (* date_data_start is a required column: the fallback is never empty *)
  let from_date := if falsy from_date then date_data_start b
                   else default "" from_date in
  match Datetime.from_string from_date with
  | None => raise ValueError
  | Some from_date =>
      let to_date := import_start_time in
      let iter_dates := __iter_rrule from_date to_date true in
      let iter_dates := if import_inverse b then rev iter_dates else iter_dates in
      walk_dates backend model add_date_field chg_date_field from_date iter_dates
  end.

(** [next_time]: the pass start minus the buffer, as the stored string. *)
Definition next_time (import_start_time : datetime) : M string :=
  match datetime.add_seconds import_start_time (- IMPORT_DELTA_BUFFER) with
  | None => raise OverflowError
  | Some t =>
      match Datetime.to_string t with
      | None => raise ValueError
      | Some s => ret s
      end
  end.

Definition _import_from_date (self : list Z) (model : string)
           (from_date_field : from_date_field.t)
           (chg_date_field add_date_field : string) : M unit :=
  import_start_time <- datetime_now ;;
  for_each self
    (import_backend_from_date model from_date_field chg_date_field add_date_field
                              import_start_time) ;;
  next_time <- next_time import_start_time ;;
  write self [set_from_date from_date_field (Some next_time)].

(** The module-level names bound to an integer. *)
Definition module_globals : list (string * Z) :=
  [("IMPORT_DELTA_BUFFER", IMPORT_DELTA_BUFFER)].

(** A name is looked up among the bindings in scope (those of the type
    at hand); a name that is bound nowhere raises [NameError]. *)
Definition load_name {A} (scope : list (string * A)) (name : string) : M A :=
  match List.find (fun entry => String.eqb entry.1 name) scope with
  | Some entry => ret entry.2
  | None => raise (NameError name)
  end.

(** [self.env[binding_model].search([])]. *)
Definition search_records (binding_model : string) : M (list local_record) :=
  fun w => (Ok (default [] (tables w !! binding_model)), w).

(** Resync all bindings for model.  The arguments of [import_record] are
    evaluated left to right after [delay(priority)]: [binding.backend_id],
    then the name [bindind]. *)
Definition resync_all (binding_model : string) (priority : Z) : M unit :=
  records <- search_records binding_model ;;
  for_each records (fun record_id =>
    for_each (carepoint_bind_ids record_id) (fun binding =>
      priority' <- load_name (("priority", priority) :: module_globals)
                             "priority" ;;
      let backend := backend_id binding in
      bindind <- load_name [("binding", binding)] "bindind" ;;
      emit (delay binding_model priority'
                  (import_record backend (carepoint_id bindind) true)))).

(** The [backend] argument of [force_sync]: an integer id or a record. *)
Inductive backend_arg : Set :=
| as_int (id : Z)
| as_record (id : Z).

(** Force synchronization based on model and primary key.  The function
    has the parameters [self], [binding_model], [remote_pk] and [backend];
    of these [remote_pk] is the integer-valued one, and an integer
    [backend] is replaced by the record it names before the call. *)
Definition force_sync (binding_model : string) (remote_pk : Z) (backend : backend_arg)
  : M unit :=
  let backend := match backend with as_int id => id | as_record id => id end in
  priority <- load_name (("remote_pk", remote_pk) :: module_globals)
                        "priority" ;;
  emit (delay binding_model priority (import_record backend remote_pk true)).

Definition import_carepoint_item (self : list Z) : M bool :=
  _import_from_date self "carepoint.carepoint.item" from_date_field.items
                    "chg_date" "add_date" ;;
  ret true.

Definition import_medical_patient (self : list Z) : M bool :=
  _import_from_date self "carepoint.medical.patient" from_date_field.patients
                    "chg_date" "add_date" ;;
  ret true.

Definition import_account_invoice (self : list Z) : M unit :=
  _import_from_date self "carepoint.account.invoice.line" from_date_field.invoices
                    "primary_pay_date" "add_date".

(** [_import_all(model_name)]: for every backend the Structure Guard,
    then the whole model queued as one batch import without filters. *)
Definition _import_all (self : list Z) (model_name : string) (priority : Z) : M unit :=
  for_each self (fun backend =>
    check_carepoint_structure [backend] ;;
    emit (delay model_name priority (import_batch backend None))).

Definition import_medical_physician (self : list Z) : M bool :=
  _import_from_date self "carepoint.medical.physician"
                    from_date_field.physicians "chg_date" "add_date" ;;
  ret true.

Definition import_medical_prescription (self : list Z) : M bool :=
  _import_from_date self "carepoint.rx.ord.ln"
                    from_date_field.prescriptions "chg_date" "add_date" ;;
  ret true.

Definition import_sale_order (self : list Z) : M unit :=
  _import_from_date self "carepoint.sale.order.line"
                    from_date_field.sales "chg_date" "add_date".

Definition import_stock_picking (self : list Z) : M unit :=
  _import_from_date self "carepoint.stock.picking"
                    from_date_field.pickings "chg_date" "add_date".

Definition import_address (self : list Z) : M unit :=
  _import_from_date self "carepoint.carepoint.address"
                    from_date_field.addresses "chg_date" "add_date".

Definition import_phone (self : list Z) : M unit :=
  _import_from_date self "carepoint.carepoint.phone"
                    from_date_field.phones "chg_date" "add_date".

(** The scheduled entry points: [self.search([]).import_...()]. *)
Definition cron_import_medical_patient : M unit :=
  found <- search [] ;;
  import_medical_patient found ;;
  ret tt.

Definition cron_import_medical_physician : M unit :=
  found <- search [] ;;
  import_medical_physician found ;;
  ret tt.

Definition cron_import_medical_prescription : M unit :=
  found <- search [] ;;
  import_medical_prescription found ;;
  ret tt.

Definition cron_import_sale_order : M unit :=
  found <- search [] ;;
  import_sale_order found.

Definition cron_import_address : M unit :=
  found <- search [] ;;
  import_address found.

Definition cron_import_phone : M unit :=
  found <- search [] ;;
  import_phone found.

Definition import_fdb (self : list Z) : M bool :=
  _import_all self "carepoint.fdb.route" 10 ;;
  _import_all self "carepoint.fdb.form" 10 ;;
  _import_all self "carepoint.fdb.unit" 10 ;;
  ret true.

End CarepointBackend.

(** * The address import mapper ([address.py]) *)

Module CarepointAddressImportMapper.

Section Mapper.

(** The characters [strip()] removes.  Python's byte strings and its
    unicode strings do not agree on them, so the set is left open. *)
Variable isspace : ascii -> bool.

Fixpoint lstrip (s : list ascii) : list ascii :=
  match s with
  | c :: rest => if isspace c then lstrip rest else s
  | [] => []
  end.

Definition rstrip (s : list ascii) : list ascii := rev (lstrip (rev s)).

(** [s.strip()]. *)
Definition strip (s : list ascii) : list ascii := rstrip (lstrip s).

(** The [zip] mapping, on the columns [zip_plus4] and [zip] of the
    remote record; the result is the value stored under ['zip']. *)
Definition zip (zip_plus4 _zip : list ascii) : list ascii :=
  let zip_plus4 := strip zip_plus4 in
  let _zip := strip _zip in
  match zip_plus4 with
  | [] => _zip
  | _ :: _ => _zip ++ "-"%char :: zip_plus4
  end.

End Mapper.

End CarepointAddressImportMapper.

(** * Statements *)

(** ** Vocabulary of the statements *)

(** The world after the events [new] were appended to the journal and
    nothing else changed. *)
Definition log (new : list event) (w : world) : world :=
  {| db := db w; tables := tables w; journal := journal w ++ new;
     clock_reads := clock_reads w |}.

(** The world after one more reading of the clock. *)
Definition tick (w : world) : world :=
  {| db := db w; tables := tables w; journal := journal w;
     clock_reads := S (clock_reads w) |}.

(** A computation that only appends events satisfying [P] to the
    journal: the table, the bound records and the clock are as before. *)
Definition quiet {A} (P : event -> Prop) (m : M A) : Prop :=
  forall w, exists new, (m w).2 = log new w /\ Forall P new.

(** The Structure Guard's direct import of the store metadata. *)
Definition guard_event (backend : Z) : event :=
  direct "carepoint.carepoint.store" (import_batch backend None).

(** A boundary pair with the earlier instant first. *)
Definition ordered (start end_ : datetime) : datetime * datetime :=
  if datetime.ltb end_ start then (end_, start) else (start, end_).

(** One fetch over a window: the guard, then the queued batch import
    filtered on [field]. *)
Definition fetch (backend : Z) (model field : string) (win : datetime * datetime)
  : list event :=
  [guard_event backend;
   delay model 10
         (import_batch backend
            (Some {| on_field := field; ge := win.1; le := win.2 |}))].

(** The windows a walk over [iter_dates] dispatches, starting from
    [from_date]. *)
Fixpoint pairs_walked (from_date : datetime) (iter_dates : list datetime)
  : list (datetime * datetime) :=
  match iter_dates with
  | [] => []
  | dt :: rest =>
      (if negb (datetime.eqb from_date dt) then [ordered from_date dt] else [])
      ++ pairs_walked dt rest
  end.

Definition windows (inverse : bool) (from_date to_date : datetime)
  : list (datetime * datetime) :=
  let iter_dates := __iter_rrule from_date to_date true in
  pairs_walked from_date (if inverse then rev iter_dates else iter_dates).

(** The consecutive pairs of a boundary sequence. *)
Fixpoint consecutive (l : list datetime) : list (datetime * datetime) :=
  match l with
  | a :: (b :: _) as rest => (a, b) :: consecutive rest
  | _ => []
  end.

(** The stored string a pass starts from: the watermark, or
    [date_data_start] when the watermark is unset. *)
Definition resolved (f : from_date_field.t) (r : backend) : string :=
  if falsy (getattr r f) then date_data_start r else default "" (getattr r f).

(** Everything one backend contributes to the journal of a pass that
    started at [to_date]. *)
Definition backend_events (model : string) (f : from_date_field.t)
           (chg_date_field add_date_field : string) (to_date : datetime)
           (id : Z) (r : backend) : list event :=
  guard_event id ::
  match Datetime.from_string (resolved f r) with
  | Some from_date =>
      concat (map (fun win => fetch id model add_date_field win
                              ++ fetch id model chg_date_field win)
                  (windows (import_inverse r) from_date to_date))
  | None => []
  end.

Definition pass_events (model : string) (f : from_date_field.t)
           (chg_date_field add_date_field : string) (to_date : datetime)
           (self : list Z) (table : gmap Z backend) : list event :=
  concat (omap (fun id => backend_events model f chg_date_field add_date_field
                                         to_date id <$> table !! id) self).

(** The filter of a queued fetch has its lower bound first. *)
Definition well_ordered (e : event) : Prop :=
  match e with
  | delay _ _ (import_batch _ (Some flt)) => datetime.le (ge flt) (le flt)
  | _ => True
  end.

Definition is_written (e : event) : bool :=
  match e with written _ _ => true | _ => false end.

(** The backend an import is for. *)
Definition event_backend (e : event) : option Z :=
  match e with
  | direct _ (import_batch b _) | direct _ (import_record b _ _)
  | delay _ _ (import_batch b _) | delay _ _ (import_record b _ _) => Some b
  | written _ _ => None
  end.

(** The events a pass may put in the journal before its final write,
    while it works on the backends [ids]: guard imports and queued
    fetches over well-ordered windows, for those backends only. *)
Definition dispatching (ids : list Z) (e : event) : Prop :=
  is_written e = false
  /\ well_ordered e
  /\ (forall b, event_backend e = Some b -> In b ids).

(** Every backend of the recordset is in the table and its starting
    string parses. *)
Definition ready (f : from_date_field.t) (table : gmap Z backend) (self : list Z) : Prop :=
  Forall (fun id => exists r, table !! id = Some r
                              /\ is_Some (Datetime.from_string (resolved f r))) self.

(** The world a pass leaves when it ends well: the events [new], then
    the one write; one more reading of the clock. *)
Definition after_write (self : list Z) (vals : list assignment) (new : list event)
           (w : world) : world :=
  {| db := stored self vals (db w); tables := tables w;
     journal := journal w ++ new ++ [written self vals];
     clock_reads := S (clock_reads w) |}.

(** A date triple back to its ordinal. *)
Definition ymd_ord (ymd : Z * Z * Z) : Z :=
  datetime.ymd2ord ymd.1.1 ymd.1.2 ymd.2.

Definition inverted (n : Z) : bool := ymd_ord (datetime.ord2ymd n) =? n.

(** [check] holds on the integers [lo], [lo+1], ... ([fuel] of them). *)
Fixpoint all_from (check : Z -> bool) (fuel : nat) (lo : Z) : bool :=
  match fuel with
  | O => true
  | S fuel' => check lo && all_from check fuel' (lo + 1)
  end.

Definition is_delay (e : event) : bool :=
  match e with delay _ _ _ => true | _ => false end.

(** An import run inline reaches the remote database during the pass;
    a queued one does not, it runs later in its job. *)
Definition remote_call (e : event) : bool :=
  match e with direct _ _ => true | _ => false end.

(** The forced import tasks among some events. *)
Definition is_forced (e : event) : bool :=
  match e with
  | delay _ _ (import_record _ _ true) => true
  | _ => false
  end.

(** Seconds since the start of year 1, microseconds dropped. *)
Definition epoch_seconds (d : datetime) : Z :=
  (datetime.toordinal d - 1) * 86400
  + datetime.hour d * 3600 + datetime.minute d * 60 + datetime.second d.

(** An active default backend of company [c]. *)
Definition active_default (c : option Z) (r : backend) : Prop :=
  company_id r = c /\ is_default r = true /\ active r = true.

(** Company [c] has at most one active default backend in the table. *)
Definition one_active_default (table : gmap Z backend) (c : option Z) : Prop :=
  forall i j ri rj,
    table !! i = Some ri -> table !! j = Some rj ->
    active_default c ri -> active_default c rj -> i = j.

(** The error of the constraint. *)
Definition default_taken : exn :=
  ValidationError "This company already has a default CarePoint connector.".

(** A row and what the watermark write of column [f] may make of it. *)
Definition same_but (f : from_date_field.t) (r r' : backend) : Prop :=
  (forall g, f <> g -> getattr r' g = getattr r g)
  /\ date_data_start r' = date_data_start r
  /\ import_inverse r' = import_inverse r
  /\ company_id r' = company_id r
  /\ is_default r' = is_default r
  /\ active r' = active r.

(** The date of ordinal [n] is a date of the first 400 years, and of
    the first 399 when [n] is before the last of them. *)
Definition in_first_cycle (n : Z) : bool :=
  let ymd := datetime.ord2ymd n in
  (1 <=? ymd.1.1) && (ymd.1.1 <=? 400)
  && (1 <=? ymd.1.2) && (ymd.1.2 <=? 12)
  && (1 <=? ymd.2) && (ymd.2 <=? datetime.days_in_month ymd.1.1 ymd.1.2)
  && ((145731 <? n) || (ymd.1.1 <=? 399)).

(** Printing [n] on two (four) digits and reading it back. *)
Definition reads_back2 (n : Z) : bool :=
  match Datetime.number_from 0 (Datetime.zfill2 n) with
  | Some m => m =? n
  | None => false
  end.

Definition reads_back4 (n : Z) : bool :=
  match Datetime.number_from 0 (Datetime.zfill4 n) with
  | Some m => m =? n
  | None => false
  end.

(** What [_import_all] journals for the backends [ids]: for each one the
    guard's direct import, then the queued import of the whole model. *)
Definition batch_events (model : string) (priority : Z) (ids : list Z) : list event :=
  flat_map (fun id => [guard_event id;
                       delay model priority (import_batch id None)]) ids.

(** The three passes of [import_fdb], one model after the other. *)
Definition fdb_events (ids : list Z) : list event :=
  batch_events "carepoint.fdb.route" 10 ids
  ++ batch_events "carepoint.fdb.form" 10 ids
  ++ batch_events "carepoint.fdb.unit" 10 ids.

(** A method run for its effect only. *)
Definition discard {A} (m : M A) : M unit := m ;; ret tt.

(** The import methods of the backend, each with the watermark column
    it is given. *)
Definition import_methods (now : nat -> datetime)
           (remote_fault : list event -> string -> Z -> option exn)
  : list (from_date_field.t * (list Z -> M unit)) :=
  [(from_date_field.items,
    fun self => discard (import_carepoint_item now remote_fault self));
   (from_date_field.patients,
    fun self => discard (import_medical_patient now remote_fault self));
   (from_date_field.physicians,
    fun self => discard (import_medical_physician now remote_fault self));
   (from_date_field.prescriptions,
    fun self => discard (import_medical_prescription now remote_fault self));
   (from_date_field.sales, import_sale_order now remote_fault);
   (from_date_field.pickings, import_stock_picking now remote_fault);
   (from_date_field.invoices, import_account_invoice now remote_fault);
   (from_date_field.addresses, import_address now remote_fault);
   (from_date_field.phones, import_phone now remote_fault)].

(** The scheduled entry points, each with its watermark column. *)
Definition cron_methods (now : nat -> datetime)
           (remote_fault : list event -> string -> Z -> option exn)
  : list (from_date_field.t * M unit) :=
  [(from_date_field.patients, cron_import_medical_patient now remote_fault);
   (from_date_field.physicians, cron_import_medical_physician now remote_fault);
   (from_date_field.prescriptions,
    cron_import_medical_prescription now remote_fault);
   (from_date_field.sales, cron_import_sale_order now remote_fault);
   (from_date_field.addresses, cron_import_address now remote_fault);
   (from_date_field.phones, cron_import_phone now remote_fault)].

(** A text that starts with a character [strip()] would keep, or is
    empty. *)
Definition clean (isspace : ascii -> bool) (s : list ascii) : Prop :=
  CarepointAddressImportMapper.lstrip isspace s = s.

(** A text made of whitespace only. *)
Definition blank (isspace : ascii -> bool) (s : list ascii) : Prop :=
  Forall (fun c => isspace c = true) s.

(** ** Scenarios *)

Definition no_fault : list event -> string -> Z -> option exn :=
  fun _ _ _ => None.


Definition row (start : string) (watermark : option string) (inverse : bool)
           (company : option Z) (dflt actv : bool) : backend :=
  {| date_data_start := start; import_inverse := inverse;
     import_items_from_date := None;
     import_patients_from_date := watermark;
     import_physicians_from_date := None;
     import_prescriptions_from_date := None;
     import_sales_from_date := None;
     import_addresses_from_date := None;
     import_phones_from_date := None;
     import_pickings_from_date := None;
     import_invoices_from_date := None;
     company_id := company; is_default := dflt; active := actv |}.

Definition world_of (table : gmap Z backend)
           (bound : gmap string (list local_record)) : world :=
  {| db := table; tables := bound; journal := []; clock_reads := 0 |}.

Definition jan1 : datetime := datetime.mk 2020 1 1 0 0 0 0.
Definition feb1 : datetime := datetime.mk 2020 2 1 0 0 0 0.
Definition mar1 : datetime := datetime.mk 2020 3 1 0 0 0 0.
Definition mar15 : datetime := datetime.mk 2020 3 15 0 0 0 0.

(** The example of the specification: data from 2020-01-01, no
    watermark yet, the clock at 2020-03-15T00:00:00. *)
Definition example_world (inverse : bool) : world :=
  world_of {[ 1 := row "2020-01-01 00:00:00" None inverse (Some 1) true true ]} ∅.

Definition example_pass (inverse : bool) : outcome unit * world :=
  _import_from_date (fun _ => mar15) no_fault [1] "carepoint.medical.patient"
                    from_date_field.patients "chg_date" "add_date"
                    (example_world inverse).

(** Two backends of company 1; the second is active and not the
    default, the first is a default that is active or archived. *)
Definition two_backends (first_active : bool) : world :=
  world_of {[ 1 := row "2020-01-01 00:00:00" None true (Some 1) true first_active;
              2 := row "2020-01-01 00:00:00" None true (Some 1) false true ]} ∅.

(** Two backends at different points: the first has no watermark yet,
    the second was synchronised up to 2020-03-01. *)
Definition staggered_world : world :=
  world_of {[ 1 := row "2020-01-01 00:00:00" None false (Some 1) true true;
              2 := row "2020-01-01 00:00:00" (Some "2020-03-01 00:00:00")
                       false (Some 2) true true ]} ∅.

(** A backend whose watermark is the instant the pass starts at. *)
Definition caught_up_world : world :=
  world_of {[ 1 := row "2020-01-01 00:00:00" (Some "2020-03-15 00:00:00")
                       true (Some 1) true true ]} ∅.

(** The filters of the queued fetches, in the order they were queued. *)
Definition queued_filters (evs : list event) : list (string * datetime * datetime) :=
  omap (fun e =>
          match e with
          | delay _ _ (import_batch _ (Some flt)) =>
              Some (on_field flt, ge flt, le flt)
          | _ => None
          end) evs.

(** Two default backends of company 1, the first one archived. *)
Definition archived_twin : world :=
  world_of {[ 1 := row "2020-01-01 00:00:00" None false (Some 1) true false;
              2 := row "2020-01-01 00:00:00" None false (Some 1) true true ]} ∅.

(** The whitespace of a Python 2 byte string: space, tab, line feed,
    vertical tab, form feed, carriage return. *)
Definition str_isspace (c : ascii) : bool :=
  existsb (Ascii.eqb c) [" "; "009"; "010"; "011"; "012"; "013"]%char.

(** * Properties *)

(** ** The order on datetimes *)

Lemma lex_compare_refl (xs : list Z) : datetime.lex_compare xs xs = Eq.
Proof.
  induction xs as [|x xs IH]; simpl; [reflexivity|].
  now rewrite Z.compare_refl.
Qed.

Lemma lex_compare_eq (xs ys : list Z) :
  datetime.lex_compare xs ys = Eq -> xs = ys.
Proof.
  revert ys; induction xs as [|x xs IH]; intros [|y ys]; simpl; try discriminate.
  - reflexivity.
  - destruct (Z.compare_spec x y) as [->| |]; try discriminate.
    intros H; f_equal; auto.
Qed.

Lemma lex_compare_antisym (xs ys : list Z) :
  datetime.lex_compare ys xs = CompOpp (datetime.lex_compare xs ys).
Proof.
  revert ys; induction xs as [|x xs IH]; intros [|y ys]; simpl; try reflexivity.
  rewrite (Z.compare_antisym x y).
  destruct (x ?= y); simpl; auto.
Qed.

Lemma lex_compare_trans (xs ys zs : list Z) :
  datetime.lex_compare xs ys = Lt -> datetime.lex_compare ys zs = Lt ->
  datetime.lex_compare xs zs = Lt.
Proof.
  revert ys zs; induction xs as [|x xs IH]; intros [|y ys] [|z zs]; simpl;
    try discriminate; try reflexivity.
  destruct (Z.compare_spec x y) as [->| |]; try discriminate.
  - destruct (Z.compare_spec y z) as [->| |]; try discriminate; eauto.
  - intros _.
    destruct (Z.compare_spec y z) as [->| |]; try discriminate; intros _.
    + destruct (Z.compare_spec x z); auto; lia.
    + destruct (Z.compare_spec x z); auto; lia.
Qed.

Lemma compare_refl (a : datetime) : datetime.compare a a = Eq.
Proof. apply lex_compare_refl. Qed.

Lemma compare_eq (a b : datetime) : datetime.compare a b = Eq -> a = b.
Proof.
  intros H; apply lex_compare_eq in H.
  destruct a, b; unfold datetime.timetuple in H; simpl in H.
  now inversion H.
Qed.

Lemma compare_antisym (a b : datetime) :
  datetime.compare b a = CompOpp (datetime.compare a b).
Proof. apply lex_compare_antisym. Qed.

Lemma eqb_eq (a b : datetime) : datetime.eqb a b = true <-> a = b.
Proof.
  unfold datetime.eqb; split.
  - destruct (datetime.compare a b) eqn:E; try discriminate.
    intros _; now apply compare_eq.
  - intros ->; now rewrite compare_refl.
Qed.

Lemma eqb_refl (a : datetime) : datetime.eqb a a = true.
Proof. now apply eqb_eq. Qed.

Lemma ltb_lt (a b : datetime) : datetime.ltb a b = true <-> datetime.lt a b.
Proof.
  unfold datetime.ltb, datetime.lt.
  destruct (datetime.compare a b); split; congruence.
Qed.

Lemma leb_le (a b : datetime) : datetime.leb a b = true <-> datetime.le a b.
Proof.
  unfold datetime.leb, datetime.le.
  destruct (datetime.compare a b); split; congruence.
Qed.

Lemma lt_irrefl (a : datetime) : ~ datetime.lt a a.
Proof. unfold datetime.lt; now rewrite compare_refl. Qed.

Lemma lt_trans (a b c : datetime) :
  datetime.lt a b -> datetime.lt b c -> datetime.lt a c.
Proof. apply lex_compare_trans. Qed.

Lemma lt_le (a b : datetime) : datetime.lt a b -> datetime.le a b.
Proof. unfold datetime.lt, datetime.le; congruence. Qed.

Lemma le_refl (a : datetime) : datetime.le a a.
Proof. unfold datetime.le; now rewrite compare_refl. Qed.

(** The order is total: what is not above is below or equal. *)
Lemma not_ltb_le (a b : datetime) : datetime.ltb b a = false -> datetime.le a b.
Proof.
  unfold datetime.ltb, datetime.le.
  rewrite (compare_antisym a b).
  destruct (datetime.compare a b); simpl; congruence.
Qed.

Lemma le_cases (a b : datetime) : datetime.le a b -> datetime.lt a b \/ a = b.
Proof.
  unfold datetime.le, datetime.lt.
  destruct (datetime.compare a b) eqn:E; intros H.
  - right; now apply compare_eq.
  - now left.
  - congruence.
Qed.

(** ** The boundary generator *)

Lemma not_leb_lt (a b : datetime) : datetime.leb a b = false -> datetime.lt b a.
Proof.
  unfold datetime.leb, datetime.lt.
  rewrite (compare_antisym a b).
  destruct (datetime.compare a b); simpl; congruence.
Qed.

Lemma candidate_month (dtstart i : datetime) (k : Z) :
  rrule.candidate dtstart k = Some i ->
  rrule.month_number i = k /\ 1 <= datetime.month i <= 12.
Proof.
  unfold rrule.candidate, rrule.month_number.
  destruct (_ <=? _); [|discriminate].
  intros [= <-]; simpl.
  pose proof (Z.mod_pos_bound k 12 ltac:(lia)).
  pose proof (Z.div_mod k 12 ltac:(lia)).
  lia.
Qed.

(** Between two datetimes whose months are in 1..12, the one in the
    earlier month is the earlier one. *)
Lemma month_number_lt (a b : datetime) :
  1 <= datetime.month a <= 12 -> 1 <= datetime.month b <= 12 ->
  rrule.month_number a < rrule.month_number b -> datetime.lt a b.
Proof.
  unfold rrule.month_number, datetime.lt, datetime.compare, datetime.timetuple.
  intros Ha Hb H; simpl.
  destruct (Z.compare_spec (datetime.year a) (datetime.year b)); [|reflexivity|lia].
  destruct (Z.compare_spec (datetime.month a) (datetime.month b)); [lia|reflexivity|lia].
Qed.

Lemma between_loop_bounds (fuel : nat) (dtstart after before : datetime)
      (k : Z) (started : bool) :
  Forall (fun x => datetime.lt x before
                   /\ k <= rrule.month_number x
                   /\ 1 <= datetime.month x <= 12)
         (rrule.between_loop fuel dtstart after before k started).
Proof.
  revert k started; induction fuel as [|fuel IH]; intros k started; simpl.
  - constructor.
  - assert (Hnext : forall st,
               Forall (fun x => datetime.lt x before
                                /\ k <= rrule.month_number x
                                /\ 1 <= datetime.month x <= 12)
                      (rrule.between_loop fuel dtstart after before (k + 1) st)).
    { intros st. eapply Forall_impl; [apply (IH (k + 1) st)|].
      simpl. intros x (H1 & H2 & H3). repeat split; try lia; auto. }
    destruct (rrule.candidate dtstart k) as [i|] eqn:Hc; [|apply Hnext].
    destruct (datetime.ltb i _); [apply Hnext|].
    destruct (datetime.leb before i) eqn:Hb; [constructor|].
    apply not_leb_lt in Hb. destruct (candidate_month _ _ _ Hc) as [Hk Hm].
    assert (Hi : datetime.lt i before
                 /\ k <= rrule.month_number i /\ 1 <= datetime.month i <= 12)
      by (repeat split; try lia; auto).
    destruct started; [constructor; auto|].
    destruct (datetime.ltb after i); [constructor; auto|apply Hnext].
Qed.

Lemma between_loop_sorted (fuel : nat) (dtstart after before : datetime)
      (k : Z) (started : bool) :
  StronglySorted datetime.lt
    (rrule.between_loop fuel dtstart after before k started).
Proof.
  revert k started; induction fuel as [|fuel IH]; intros k started; simpl.
  - constructor.
  - destruct (rrule.candidate dtstart k) as [i|] eqn:Hc; [|apply IH].
    destruct (datetime.ltb i _); [apply IH|].
    destruct (datetime.leb before i); [constructor|].
    destruct (candidate_month _ _ _ Hc) as [Hk Hm].
    assert (Hcons : forall st,
               StronglySorted datetime.lt
                 (i :: rrule.between_loop fuel dtstart after before (k + 1) st)).
    { intros st. constructor; [apply IH|].
      eapply Forall_impl; [apply between_loop_bounds|].
      simpl. intros x (_ & H2 & H3). apply month_number_lt; auto; lia. }
    destruct started; [apply Hcons|].
    destruct (datetime.ltb after i); [apply Hcons|apply IH].
Qed.

Lemma between_loop_after (fuel : nat) (dtstart after before : datetime) (k : Z) :
  Forall (datetime.lt after)
         (rrule.between_loop fuel dtstart after before k false).
Proof.
  revert k; induction fuel as [|fuel IH]; intros k.
  - constructor.
  - pose proof (between_loop_sorted (S fuel) dtstart after before k false) as Hs.
    simpl in *.
    destruct (rrule.candidate dtstart k) as [i|]; [|apply IH].
    destruct (datetime.ltb i _); [apply IH|].
    destruct (datetime.leb before i); [constructor|].
    destruct (datetime.ltb after i) eqn:Ha; [|apply IH].
    apply ltb_lt in Ha. inversion Hs as [|? ? _ Hall]; subst.
    constructor; [assumption|].
    eapply Forall_impl; [exact Hall|].
    intros x Hx; simpl in Hx. eapply lt_trans; eauto.
Qed.

(** What [between] returns lies strictly between its bounds, in
    increasing order. *)
Lemma between_spec (dtstart after before : datetime) :
  StronglySorted datetime.lt (rrule.between dtstart after before)
  /\ Forall (fun x => datetime.lt after x /\ datetime.lt x before)
            (rrule.between dtstart after before).
Proof.
  unfold rrule.between; split; [apply between_loop_sorted|].
  apply Forall_forall; intros x Hx.
  pose proof (between_loop_after (rrule.months_left dtstart) dtstart after before
                                 (rrule.month_number dtstart)) as Ha.
  pose proof (between_loop_bounds (rrule.months_left dtstart) dtstart after before
                                  (rrule.month_number dtstart) false) as Hb.
  rewrite Forall_forall in Ha, Hb.
  split; [now apply Ha|now apply Hb].
Qed.

Lemma between_empty (dtstart d : datetime) : rrule.between dtstart d d = [].
Proof.
  destruct (between_spec dtstart d d) as [_ H].
  destruct (rrule.between dtstart d d) as [|x l]; [reflexivity|].
  inversion H as [|? ? [H1 H2] _]; subst.
  exfalso; apply (lt_irrefl d); eapply lt_trans; eauto.
Qed.

Lemma sorted_snoc (R : datetime -> datetime -> Prop) (l : list datetime)
      (z : datetime) :
  StronglySorted R l -> Forall (fun x => R x z) l -> StronglySorted R (l ++ [z]).
Proof.
  induction 1 as [|x l Hs IH Hx]; intros Hz; simpl.
  - repeat constructor.
  - inversion Hz; subst. constructor; [auto|].
    apply Forall_app; split; [assumption|]. repeat constructor; assumption.
Qed.

(** ** Effects: what a computation may change *)

Lemma log_nil (w : world) : log [] w = w.
Proof. destruct w; unfold log; simpl; now rewrite app_nil_r. Qed.

Lemma log_log (a b : list event) (w : world) : log b (log a w) = log (a ++ b) w.
Proof. unfold log; simpl; now rewrite <- List.app_assoc. Qed.

Lemma quiet_ret {A} (P : event -> Prop) (a : A) : quiet P (ret a).
Proof. intros w; exists []; simpl; now rewrite log_nil. Qed.

Lemma quiet_raise {A} (P : event -> Prop) (e : exn) : quiet P (@raise A e).
Proof. intros w; exists []; simpl; now rewrite log_nil. Qed.

Lemma quiet_bind {A B} (P : event -> Prop) (m : M A) (k : A -> M B) :
  quiet P m -> (forall a, quiet P (k a)) -> quiet P (bind m k).
Proof.
  intros Hm Hk w; unfold bind.
  destruct (Hm w) as (new & Hw & Hnew).
  destruct (m w) as [[a|e] w1]; simpl in Hw; subst w1.
  - destruct (Hk a (log new w)) as (new' & Hw' & Hnew').
    exists (new ++ new'); rewrite Hw', log_log; split; [reflexivity|].
    apply Forall_app; auto.
  - exists new; auto.
Qed.

Lemma quiet_for_each {A} (P : event -> Prop) (xs : list A) (body : A -> M unit) :
  (forall x, quiet P (body x)) -> quiet P (for_each xs body).
Proof.
  intros Hb; induction xs as [|x xs IH]; simpl.
  - apply quiet_ret.
  - apply quiet_bind; auto.
Qed.

Lemma quiet_emit (P : event -> Prop) (e : event) : P e -> quiet P (emit e).
Proof. intros He w; exists [e]; split; [reflexivity|]; repeat constructor; auto. Qed.

Lemma quiet_browse (P : event -> Prop) (id : Z) : quiet P (browse id).
Proof.
  intros w; exists []; unfold browse; rewrite log_nil.
  destruct (db w !! id); auto.
Qed.

Lemma quiet_search (P : event -> Prop) (domain : list leaf) : quiet P (search domain).
Proof. intros w; exists []; simpl; now rewrite log_nil. Qed.

Lemma quiet_load_name {A} (P : event -> Prop) (scope : list (string * A)) (name : string) :
  quiet P (load_name scope name).
Proof.
  unfold load_name; destruct (find _ _); [apply quiet_ret|apply quiet_raise].
Qed.

Lemma quiet_weaken {A} (P Q : event -> Prop) (m : M A) :
  (forall e, P e -> Q e) -> quiet P m -> quiet Q m.
Proof.
  intros HPQ Hm w; destruct (Hm w) as (new & Hw & Hnew).
  exists new; split; [assumption|]. eapply Forall_impl; eauto.
Qed.

Lemma quiet_for_each_in {A} (P : event -> Prop) (xs : list A) (body : A -> M unit) :
  (forall x, In x xs -> quiet P (body x)) -> quiet P (for_each xs body).
Proof.
  induction xs as [|x xs IH]; intros Hb; simpl.
  - apply quiet_ret.
  - apply quiet_bind; [apply Hb; now left|].
    intros _; apply IH. intros y Hy; apply Hb; now right.
Qed.

(** Events for one backend of a recordset are events for the
    recordset. *)
Lemma dispatching_mono (b : Z) (ids : list Z) (e : event) :
  In b ids -> dispatching [b] e -> dispatching ids e.
Proof.
  intros Hin (Hw & Ho & Hb); repeat split; auto.
  intros b' Hb'. destruct (Hb b' Hb') as [<-|[]]. exact Hin.
Qed.

Create HintDb effects.
#[export] Hint Resolve quiet_ret quiet_raise quiet_browse quiet_search
  quiet_load_name : effects.

Section Effects.

Variable remote_fault : list event -> string -> Z -> option exn.

Lemma quiet_import_batch_now (model : string) (backend : Z) :
  quiet (dispatching [backend]) (import_batch_now remote_fault model backend).
Proof.
  intros w; exists [direct model (import_batch backend None)].
  unfold import_batch_now; simpl.
  split; [destruct (remote_fault _ _ _); reflexivity|].
  constructor; [|constructor].
  repeat split; simpl; auto. intros b' [= <-]. now left.
Qed.

Lemma quiet_check_carepoint_structure (self : list Z) :
  quiet (dispatching self) (check_carepoint_structure remote_fault self).
Proof.
  unfold check_carepoint_structure, synchronize_metadata.
  apply quiet_bind; [|intros; apply quiet_ret].
  apply quiet_bind; [|intros; apply quiet_ret].
  apply quiet_for_each_in; intros backend Hin.
  apply quiet_for_each; intros model.
  eapply quiet_weaken; [|apply quiet_import_batch_now].
  intros e; now apply dispatching_mono.
Qed.

Lemma ordered_le (start end_ : datetime) :
  datetime.le (ordered start end_).1 (ordered start end_).2.
Proof.
  unfold ordered; destruct (datetime.ltb end_ start) eqn:E; simpl.
  - apply lt_le; now apply ltb_lt.
  - now apply not_ltb_le.
Qed.

Lemma quiet___import_from_date (self : list Z) (model_name : string)
      (start end_ : datetime) (chg_date_field : string) (priority : Z) :
  quiet (dispatching self)
        (__import_from_date remote_fault self model_name start end_
                            chg_date_field priority).
Proof.
  unfold __import_from_date.
  pose proof (ordered_le start end_) as Hle; unfold ordered in Hle.
  destruct (datetime.ltb end_ start); simpl in Hle;
    apply quiet_for_each_in; intros bk Hin; apply quiet_bind;
      try (eapply quiet_weaken; [|apply quiet_check_carepoint_structure];
           intros e; now apply dispatching_mono);
      intros _; apply quiet_emit; repeat split; simpl; auto;
      now intros ? [= <-].
Qed.

Lemma quiet_walk_dates (backend : Z) (model add_date_field chg_date_field : string)
      (from_date : datetime) (iter_dates : list datetime) :
  quiet (dispatching [backend])
        (walk_dates remote_fault backend model add_date_field chg_date_field
                    from_date iter_dates).
Proof.
  revert from_date; induction iter_dates as [|dt rest IH]; intros from_date; simpl.
  - apply quiet_ret.
  - apply quiet_bind; [|auto].
    destruct (negb _); [|apply quiet_ret].
    apply quiet_bind; [|intros _]; apply quiet___import_from_date.
Qed.

Lemma quiet_import_backend_from_date (model : string) (f : from_date_field.t)
      (chg_date_field add_date_field : string) (start_time : datetime) (backend : Z) :
  quiet (dispatching [backend])
        (import_backend_from_date remote_fault model f chg_date_field
                                  add_date_field start_time backend).
Proof.
  unfold import_backend_from_date.
  apply quiet_bind; [apply quiet_check_carepoint_structure|intros _].
  apply quiet_bind; [apply quiet_browse|intros b].
  destruct (Datetime.from_string _); [apply quiet_walk_dates|apply quiet_raise].
Qed.

End Effects.

Lemma bind_ok {A B} (m : M A) (k : A -> M B) (w : world) (a : A) (w1 : world) :
  m w = (Ok a, w1) -> bind m k w = k a w1.
Proof. unfold bind; now intros ->. Qed.

Lemma bind_raise {A B} (m : M A) (k : A -> M B) (w : world) (e : exn) (w1 : world) :
  m w = (Raise e, w1) -> bind m k w = (Raise e, w1).
Proof. unfold bind; now intros ->. Qed.

Section Pass.

Variable now : nat -> datetime.
Variable remote_fault : list event -> string -> Z -> option exn.

(** *** Every run of a pass: either it raised before writing, or it
    wrote once, last. *)
Lemma pass_cases (self : list Z) (model : string) (f : from_date_field.t)
      (chg_date_field add_date_field : string) (w : world) :
  exists new,
    Forall (dispatching self) new
    /\ ((exists e,
           _import_from_date now remote_fault self model f chg_date_field
                             add_date_field w
           = (Raise e, log new (tick w)))
        \/ (exists t s,
              datetime.add_seconds (now (clock_reads w)) (- IMPORT_DELTA_BUFFER) = Some t
              /\ Datetime.to_string t = Some s
              /\ missing self (db w) = None
              /\ _import_from_date now remote_fault self model f chg_date_field
                                   add_date_field w
                 = (Ok tt, after_write self [set_from_date f (Some s)] new w))).
Proof.
  set (body := import_backend_from_date remote_fault model f chg_date_field
                                        add_date_field (now (clock_reads w))).
  destruct (quiet_for_each_in (dispatching self) self body
              (fun id Hin =>
                 quiet_weaken _ _ _ (fun e => dispatching_mono id self e Hin)
                   (quiet_import_backend_from_date remote_fault model f
                      chg_date_field add_date_field (now (clock_reads w)) id))
              (tick w)) as (new & Hw & Hnew).
  exists new; split; [assumption|].
  unfold _import_from_date.
  rewrite (bind_ok _ _ w (now (clock_reads w)) (tick w)) by reflexivity.
  fold body.
  destruct (for_each self body (tick w)) as [[[]|e] w1] eqn:Hloop;
    simpl in Hw; subst w1.
  2: { left; exists e. now apply bind_raise. }
  rewrite (bind_ok _ _ _ tt _ Hloop).
  unfold next_time.
  destruct (datetime.add_seconds _ _) as [t|] eqn:Ht;
    [|left; eexists; reflexivity].
  destruct (Datetime.to_string t) as [s|] eqn:Hs; [|left; eexists; reflexivity].
  rewrite (bind_ok _ _ _ s (log new (tick w))) by reflexivity.
  unfold write; simpl.
  destruct (missing self (db w)) as [id|] eqn:Hmiss; [left; eexists; reflexivity|].
  right; exists t, s; repeat split; auto.
  unfold after_write, log, tick; simpl. now rewrite <- List.app_assoc.
Qed.

End Pass.

Lemma ready_missing (f : from_date_field.t) (table : gmap Z backend) (self : list Z) :
  ready f table self -> missing self table = None.
Proof.
  unfold ready, missing; induction 1 as [|id self (r & Hr & _) _ IH]; simpl.
  - reflexivity.
  - rewrite Hr. rewrite bool_decide_eq_false_2 by discriminate. exact IH.
Qed.

Section FaultFree.

Variable now : nat -> datetime.
Variable remote_fault : list event -> string -> Z -> option exn.
Hypothesis fault_free : forall h model backend, remote_fault h model backend = None.

Lemma check_carepoint_structure_run (backend : Z) (w : world) :
  check_carepoint_structure remote_fault [backend] w
  = (Ok true, log [guard_event backend] w).
Proof.
  unfold check_carepoint_structure, synchronize_metadata, bind; simpl.
  unfold bind, import_batch_now; simpl.
  now rewrite fault_free.
Qed.

Lemma __import_from_date_run (backend : Z) (model field : string)
      (start end_ : datetime) (w : world) :
  __import_from_date remote_fault [backend] model start end_ field 10 w
  = (Ok tt, log (fetch backend model field (ordered start end_)) w).
Proof.
  unfold __import_from_date, ordered, fetch.
  destruct (datetime.ltb end_ start); simpl;
    unfold bind at 1; unfold bind at 1;
    rewrite check_carepoint_structure_run; simpl;
    unfold ret, log; simpl; now rewrite <- List.app_assoc.
Qed.

Lemma walk_dates_run (backend : Z) (model add_date_field chg_date_field : string)
      (from_date : datetime) (iter_dates : list datetime) (w : world) :
  walk_dates remote_fault backend model add_date_field chg_date_field
             from_date iter_dates w
  = (Ok tt,
     log (concat (map (fun win => fetch backend model add_date_field win
                                  ++ fetch backend model chg_date_field win)
                      (pairs_walked from_date iter_dates))) w).
Proof.
  revert from_date w; induction iter_dates as [|dt rest IH]; intros from_date w.
  - simpl; now rewrite log_nil.
  - cbn [walk_dates pairs_walked].
    destruct (negb (datetime.eqb from_date dt)).
    + erewrite bind_ok.
      2: { erewrite bind_ok by apply __import_from_date_run.
           apply __import_from_date_run. }
      rewrite IH, !log_log. cbn [app map concat].
      now rewrite <- !List.app_assoc.
    + erewrite bind_ok by reflexivity. now rewrite IH.
Qed.

Lemma import_backend_from_date_run (model : string) (f : from_date_field.t)
      (chg_date_field add_date_field : string) (to_date : datetime)
      (id : Z) (r : backend) (w : world) :
  db w !! id = Some r ->
  is_Some (Datetime.from_string (resolved f r)) ->
  import_backend_from_date remote_fault model f chg_date_field add_date_field
                           to_date id w
  = (Ok tt,
     log (backend_events model f chg_date_field add_date_field to_date id r) w).
Proof.
  intros Hr [from_date Hfrom].
  unfold import_backend_from_date, backend_events.
  erewrite bind_ok by apply check_carepoint_structure_run.
  erewrite bind_ok.
  2: { unfold browse. cbn [db log]. now rewrite Hr. }
  fold (resolved f r). rewrite Hfrom.
  rewrite walk_dates_run, log_log. reflexivity.
Qed.

Lemma for_each_backend_run (model : string) (f : from_date_field.t)
      (chg_date_field add_date_field : string) (to_date : datetime)
      (self : list Z) (w : world) :
  ready f (db w) self ->
  for_each self
           (import_backend_from_date remote_fault model f chg_date_field
                                     add_date_field to_date) w
  = (Ok tt,
     log (pass_events model f chg_date_field add_date_field to_date self (db w)) w).
Proof.
  unfold ready, pass_events.
  revert w; induction self as [|id self IH]; intros w Hready.
  - simpl; now rewrite log_nil.
  - inversion Hready as [|? ? (r & Hr & Hparse) Hrest]; subst.
    cbn [for_each omap list_omap].
    erewrite bind_ok by (eapply import_backend_from_date_run; eauto).
    rewrite IH by exact Hrest.
    rewrite Hr; cbn [fmap option_fmap option_map concat db log].
    now rewrite log_log.
Qed.

(** *** A pass that meets no fault, run to its end. *)
Lemma pass_run (self : list Z) (model : string) (f : from_date_field.t)
      (chg_date_field add_date_field : string) (w : world) (t : datetime) (s : string) :
  ready f (db w) self ->
  datetime.add_seconds (now (clock_reads w)) (- IMPORT_DELTA_BUFFER) = Some t ->
  Datetime.to_string t = Some s ->
  _import_from_date now remote_fault self model f chg_date_field add_date_field w
  = (Ok tt,
     after_write self [set_from_date f (Some s)]
                 (pass_events model f chg_date_field add_date_field
                              (now (clock_reads w)) self (db w)) w).
Proof.
  intros Hready Ht Hs.
  unfold _import_from_date.
  rewrite (bind_ok _ _ w (now (clock_reads w)) (tick w)) by reflexivity.
  erewrite bind_ok by (apply for_each_backend_run; exact Hready).
  unfold next_time; rewrite Ht, Hs.
  erewrite bind_ok by reflexivity.
  unfold write. cbn [db log tick].
  rewrite (ready_missing _ _ _ Hready). cbn [existsb constrains orb].
  unfold after_write, log, tick; simpl. now rewrite <- List.app_assoc.
Qed.

End FaultFree.

(** ** The boundary sequence and the windows walked over it *)

Lemma iter_rrule_cons (start end_ : datetime) :
  __iter_rrule start end_ true
  = start :: rrule.between start start end_ ++ [end_].
Proof. reflexivity. Qed.

Lemma iter_rrule_sorted (start end_ : datetime) :
  datetime.lt start end_ ->
  StronglySorted datetime.lt (__iter_rrule start end_ true).
Proof.
  intros Hlt; rewrite iter_rrule_cons.
  destruct (between_spec start start end_) as [Hs Hb].
  constructor.
  - apply sorted_snoc; [assumption|].
    eapply Forall_impl; [exact Hb|]. now intros x [_ H].
  - apply Forall_app; split.
    + eapply Forall_impl; [exact Hb|]. now intros x [H _].
    + repeat constructor; assumption.
Qed.

Lemma lt_neq (a b : datetime) : datetime.lt a b -> datetime.eqb a b = false.
Proof.
  intros H; unfold datetime.eqb; unfold datetime.lt in H; now rewrite H.
Qed.

Lemma lt_asym (a b : datetime) : datetime.lt a b -> datetime.ltb b a = false.
Proof.
  intros H; unfold datetime.ltb; rewrite (compare_antisym a b).
  unfold datetime.lt in H; now rewrite H.
Qed.

Lemma pairs_walked_ascending (a : datetime) (l : list datetime) :
  StronglySorted datetime.lt (a :: l) -> pairs_walked a l = consecutive (a :: l).
Proof.
  revert a; induction l as [|b l IH]; intros a Hs; [reflexivity|].
  inversion Hs as [|? ? Hl Ha]; subst. inversion Ha as [|? ? Hab _]; subst.
  cbn [pairs_walked consecutive].
  rewrite (lt_neq _ _ Hab); unfold ordered; rewrite (lt_asym _ _ Hab).
  simpl. f_equal. now apply IH.
Qed.

Lemma pairs_walked_descending (a : datetime) (l : list datetime) :
  StronglySorted (fun x y => datetime.lt y x) (a :: l) ->
  pairs_walked a l = map (fun p => (p.2, p.1)) (consecutive (a :: l)).
Proof.
  revert a; induction l as [|b l IH]; intros a Hs; [reflexivity|].
  inversion Hs as [|? ? Hl Ha]; subst. inversion Ha as [|? ? Hba _]; subst.
  cbn [pairs_walked consecutive map].
  assert (Hne : datetime.eqb a b = false).
  { unfold datetime.eqb; rewrite (compare_antisym b a).
    unfold datetime.lt in Hba; now rewrite Hba. }
  rewrite Hne; unfold ordered.
  apply ltb_lt in Hba; rewrite Hba.
  simpl. f_equal. now apply IH.
Qed.

Lemma consecutive_snoc (l : list datetime) (a b : datetime) :
  consecutive (l ++ [a; b]) = consecutive (l ++ [a]) ++ [(a, b)].
Proof.
  induction l as [|x l IH]; [reflexivity|].
  destruct l as [|y l]; [reflexivity|].
  change ((x :: y :: l) ++ [a; b]) with (x :: (y :: l) ++ [a; b]).
  change ((x :: y :: l) ++ [a]) with (x :: (y :: l) ++ [a]).
  cbn [consecutive app] in *. now rewrite IH.
Qed.

Lemma consecutive_rev (l : list datetime) :
  consecutive (rev l) = rev (map (fun p => (p.2, p.1)) (consecutive l)).
Proof.
  induction l as [|a l IH]; [reflexivity|].
  destruct l as [|b l]; [reflexivity|].
  cbn [consecutive map]. cbn [rev] in *.
  rewrite <- List.app_assoc. cbn [app].
  rewrite consecutive_snoc, IH. reflexivity.
Qed.

Lemma consecutive_rev_swapped (l : list datetime) :
  map (fun p => (p.2, p.1)) (consecutive (rev l)) = rev (consecutive l).
Proof.
  rewrite consecutive_rev, List.map_rev, List.map_map.
  f_equal. rewrite <- (List.map_id (consecutive l)) at 2.
  apply List.map_ext. now intros [].
Qed.

Lemma sorted_rev (l : list datetime) :
  StronglySorted datetime.lt l ->
  StronglySorted (fun x y => datetime.lt y x) (rev l).
Proof.
  induction 1 as [|a l Hs IH Ha]; simpl; [constructor|].
  apply sorted_snoc; [assumption|].
  apply Forall_forall; intros x Hx.
  apply list_elem_of_In, in_rev in Hx.
  rewrite Forall_forall in Ha. now apply Ha, list_elem_of_In.
Qed.

(** Oldest first, the windows are the consecutive boundary pairs. *)
Lemma windows_forward (from_date to_date : datetime) :
  datetime.lt from_date to_date ->
  windows false from_date to_date
  = consecutive (__iter_rrule from_date to_date true).
Proof.
  intros Hlt; unfold windows.
  pose proof (iter_rrule_sorted _ _ Hlt) as Hs.
  rewrite iter_rrule_cons in *.
  cbn [pairs_walked]. rewrite eqb_refl. simpl.
  now apply pairs_walked_ascending.
Qed.

(** Newest first, the walk starts from the stored instant and meets
    the pass start first: the whole range is dispatched as one window,
    and the consecutive boundary pairs follow, newest first. *)
Lemma windows_inverse (from_date to_date : datetime) :
  datetime.lt from_date to_date ->
  windows true from_date to_date
  = (from_date, to_date)
      :: rev (consecutive (__iter_rrule from_date to_date true)).
Proof.
  intros Hlt; unfold windows.
  pose proof (sorted_rev _ (iter_rrule_sorted _ _ Hlt)) as Hs.
  rewrite <- consecutive_rev_swapped.
  assert (Hrev : rev (__iter_rrule from_date to_date true)
                 = to_date :: rev (rrule.between from_date from_date to_date)
                           ++ [from_date]).
  { rewrite iter_rrule_cons. cbn [rev]. now rewrite rev_app_distr. }
  rewrite Hrev in *.
  cbn [pairs_walked]. rewrite (lt_neq _ _ Hlt).
  unfold ordered at 1; rewrite (lt_asym _ _ Hlt).
  cbn [negb app]. f_equal.
  now apply pairs_walked_descending.
Qed.

(** *** The example of the specification, run *)

(** C1.  With data from 2020-01-01, no watermark and the pass started at
    2020-03-15T00:00:00, the boundaries are 01-01, 02-01, 03-01, 03-15;
    oldest first the pass queues the three monthly windows (one fetch on
    [add_date] and one on [chg_date] each) and stores the watermark
    2020-03-14 23:59:30.  Newest first it stores the same watermark but
    queues four windows: the whole range 01-01..03-15 first, then the
    three windows from the newest to the oldest. *)
Theorem example_pass_dispatch :
  __iter_rrule jan1 mar15 true = [jan1; feb1; mar1; mar15]
  /\ (example_pass false).1 = Ok tt
  /\ queued_filters (journal (example_pass false).2)
     = [("add_date", jan1, feb1); ("chg_date", jan1, feb1);
        ("add_date", feb1, mar1); ("chg_date", feb1, mar1);
        ("add_date", mar1, mar15); ("chg_date", mar1, mar15)]
  /\ (import_patients_from_date <$> db (example_pass false).2 !! 1)
     = Some (Some "2020-03-14 23:59:30")
  /\ (example_pass true).1 = Ok tt
  /\ queued_filters (journal (example_pass true).2)
     = [("add_date", jan1, mar15); ("chg_date", jan1, mar15);
        ("add_date", mar1, mar15); ("chg_date", mar1, mar15);
        ("add_date", feb1, mar1); ("chg_date", feb1, mar1);
        ("add_date", jan1, feb1); ("chg_date", jan1, feb1)]
  /\ (import_patients_from_date <$> db (example_pass true).2 !! 1)
     = Some (Some "2020-03-14 23:59:30").
Proof. repeat split; vm_compute; reflexivity. Qed.

(** *** C2: the shape of the boundary sequence *)

(** C2 (as the code has it).  For [start <= end] the boundary sequence
    begins with [start] and ends with [end]; the boundaries in between
    are strictly increasing and lie strictly between the two; and either
    [start < end] and the whole sequence is strictly increasing, or
    [start = end] and it is that instant yielded twice, [start; start]. *)
Theorem iter_rrule_boundaries (start end_ : datetime) :
  datetime.le start end_ ->
  exists mids,
    __iter_rrule start end_ true = start :: mids ++ [end_]
    /\ StronglySorted datetime.lt mids
    /\ Forall (fun x => datetime.lt start x /\ datetime.lt x end_) mids
    /\ ((datetime.lt start end_
         /\ StronglySorted datetime.lt (__iter_rrule start end_ true))
        \/ (start = end_ /\ __iter_rrule start end_ true = [start; start])).
Proof.
  intros Hle. exists (rrule.between start start end_).
  destruct (between_spec start start end_) as [Hs Hb].
  repeat split; auto.
  destruct (le_cases _ _ Hle) as [Hlt| <-].
  - left. split; [assumption|]. now apply iter_rrule_sorted.
  - right. split; [reflexivity|]. rewrite iter_rrule_cons. now rewrite between_empty.
Qed.

Lemma iter_rrule_boundaries_example :
  exists mids,
    __iter_rrule jan1 mar15 true = jan1 :: mids ++ [mar15]
    /\ StronglySorted datetime.lt mids
    /\ Forall (fun x => datetime.lt jan1 x /\ datetime.lt x mar15) mids
    /\ ((datetime.lt jan1 mar15
         /\ StronglySorted datetime.lt (__iter_rrule jan1 mar15 true))
        \/ (jan1 = mar15 /\ __iter_rrule jan1 mar15 true = [jan1; jan1])).
Proof.
  apply (iter_rrule_boundaries jan1 mar15). vm_compute. discriminate.
Defined.

(** C2 (as stated) fails when [start = end]: the sequence is not the
    single instant and not strictly increasing. *)
Lemma iter_rrule_same_instant_twice :
  datetime.le jan1 jan1
  /\ __iter_rrule jan1 jan1 true = [jan1; jan1]
  /\ __iter_rrule jan1 jan1 true <> [jan1]
  /\ ~ StronglySorted datetime.lt (__iter_rrule jan1 jan1 true).
Proof.
  assert (H : __iter_rrule jan1 jan1 true = [jan1; jan1]) by (vm_compute; reflexivity).
  rewrite H. repeat split.
  - apply le_refl.
  - discriminate.
  - intros Hs. inversion Hs as [|? ? _ Ha]; subst.
    inversion Ha as [|? ? Hlt _]; subst. exact (lt_irrefl _ Hlt).
Qed.

(** ** The calendar: ordinals and dates *)

Lemma all_from_spec (check : Z -> bool) (fuel : nat) (lo n : Z) :
  all_from check fuel lo = true -> lo <= n < lo + Z.of_nat fuel ->
  check n = true.
Proof.
  revert lo; induction fuel as [|fuel IH]; intros lo H Hn; [lia|].
  cbn [all_from] in H. apply andb_prop in H as [H1 H2].
  destruct (Z.eq_dec n lo) as [->|Hne]; [assumption|].
  apply (IH (lo + 1)); [assumption|lia].
Qed.

Lemma all_from_range (check : Z -> bool) (k lo n : Z) :
  all_from check (Z.to_nat k) lo = true -> lo <= n < lo + k -> check n = true.
Proof.
  intros H Hn. apply (all_from_spec check (Z.to_nat k) lo n H).
  rewrite Z2Nat.id; lia.
Qed.

Lemma first_cycle_inverted :
  all_from inverted (Z.to_nat datetime.DI400Y) 1 = true.
Proof. vm_cast_no_check (eq_refl true). Qed.

Lemma is_leap_cycle (y q : Z) : datetime.is_leap (y + 400 * q) = datetime.is_leap y.
Proof.
  unfold datetime.is_leap.
  replace (y + 400 * q) with (y + (100 * q) * 4) at 1 by lia.
  replace (y + 400 * q) with (y + (4 * q) * 100) at 1 by lia.
  replace (y + 400 * q) with (y + q * 400) by lia.
  now rewrite !Z.mod_add by lia.
Qed.

Lemma ymd2ord_cycle (y m d q : Z) :
  datetime.ymd2ord (y + 400 * q) m d = datetime.ymd2ord y m d + datetime.DI400Y * q.
Proof.
  unfold datetime.ymd2ord, datetime.days_before_month, datetime.days_before_year,
    datetime.DI400Y.
  rewrite is_leap_cycle. cbv zeta.
  replace ((y + 400 * q - 1) / 4) with ((y - 1) / 4 + 100 * q)
    by (replace (y + 400 * q - 1) with (y - 1 + (100 * q) * 4) by lia;
        now rewrite Z.div_add by lia).
  replace ((y + 400 * q - 1) / 100) with ((y - 1) / 100 + 4 * q)
    by (replace (y + 400 * q - 1) with (y - 1 + (4 * q) * 100) by lia;
        now rewrite Z.div_add by lia).
  replace ((y + 400 * q - 1) / 400) with ((y - 1) / 400 + q)
    by (replace (y + 400 * q - 1) with (y - 1 + q * 400) by lia;
        now rewrite Z.div_add by lia).
  lia.
Qed.

Lemma ord2ymd_cycle (n : Z) :
  datetime.ord2ymd n
  = let ymd := datetime.ord2ymd ((n - 1) mod datetime.DI400Y + 1) in
    (ymd.1.1 + 400 * ((n - 1) / datetime.DI400Y), ymd.1.2, ymd.2).
Proof.
  unfold datetime.ord2ymd. cbv zeta.
  assert (Hr : 0 <= (n - 1) mod datetime.DI400Y < datetime.DI400Y)
    by (apply Z.mod_pos_bound; reflexivity).
  replace ((n - 1) mod datetime.DI400Y + 1 - 1) with ((n - 1) mod datetime.DI400Y) by lia.
  rewrite (Z.div_small ((n - 1) mod datetime.DI400Y) datetime.DI400Y) by exact Hr.
  rewrite (Z.mod_small ((n - 1) mod datetime.DI400Y) datetime.DI400Y) by exact Hr.
  generalize ((n - 1) / datetime.DI400Y) as q.
  generalize ((n - 1) mod datetime.DI400Y) as r. clear. intros r q.
  generalize (r / datetime.DI100Y) as n100.
  generalize (r mod datetime.DI100Y) as r100. intros r100 n100.
  generalize (r100 / datetime.DI4Y) as n4.
  generalize (r100 mod datetime.DI4Y) as r4. intros r4 n4.
  generalize (r4 / 365) as n1. generalize (r4 mod 365) as d. intros d n1.
  generalize (Z.shiftr (d + 50) 5) as m. intros m.
  destruct ((n1 =? 4) || (n100 =? 4)); cbn [fst snd].
  - f_equal. f_equal. lia.
  - generalize (datetime.DAYS_BEFORE_MONTH m
                + (if (2 <? m) && ((n1 =? 3) && (negb (n4 =? 24) || (n100 =? 3)))
                   then 1 else 0)) as p. intros p.
    destruct (d <? p); cbn [fst snd]; f_equal; f_equal; lia.
Qed.

Lemma inverted_eq (n : Z) : inverted n = true -> ymd_ord (datetime.ord2ymd n) = n.
Proof. unfold inverted. apply Z.eqb_eq. Qed.

Lemma first_cycle (n : Z) :
  1 <= n < 1 + datetime.DI400Y -> ymd_ord (datetime.ord2ymd n) = n.
Proof.
  intros Hn. apply inverted_eq.
  exact (all_from_range inverted datetime.DI400Y 1 n first_cycle_inverted Hn).
Qed.

(** [ymd2ord] undoes [ord2ymd]. *)
Lemma ymd2ord_ord2ymd (n : Z) : ymd_ord (datetime.ord2ymd n) = n.
Proof.
  pose proof (Z.mod_pos_bound (n - 1) datetime.DI400Y ltac:(reflexivity)) as Hr.
  pose proof (Z.div_mod (n - 1) datetime.DI400Y ltac:(discriminate)) as Hq.
  pose proof (first_cycle ((n - 1) mod datetime.DI400Y + 1) ltac:(lia)) as H.
  rewrite ord2ymd_cycle. cbv zeta.
  revert H. generalize (datetime.ord2ymd ((n - 1) mod datetime.DI400Y + 1)).
  intros [[y m] d]. unfold ymd_ord. cbn [fst snd]. intros H.
  rewrite ymd2ord_cycle, H. lia.
Qed.

(** ** The buffer subtraction *)

Lemma add_seconds_inv (d t : datetime) (delta : Z) :
  datetime.add_seconds d delta = Some t ->
  let total := datetime.hour d * 3600 + datetime.minute d * 60
               + datetime.second d + delta in
  datetime.toordinal t = datetime.toordinal d + total / 86400
  /\ datetime.hour t = total mod 86400 / 3600
  /\ datetime.minute t = (total mod 86400) mod 3600 / 60
  /\ datetime.second t = (total mod 86400) mod 60
  /\ datetime.microsecond t = datetime.microsecond d.
Proof.
  unfold datetime.add_seconds. cbv zeta.
  destruct (_ && _); [|discriminate].
  pose proof (ymd2ord_ord2ymd
                (datetime.toordinal d
                 + (datetime.hour d * 3600 + datetime.minute d * 60
                    + datetime.second d + delta) / 86400)) as Hord.
  destruct (datetime.ord2ymd _) as [[y m] dd].
  intros [= <-]. unfold datetime.toordinal at 1. cbn.
  unfold ymd_ord in Hord. cbn in Hord. auto.
Qed.

(** Subtracting the buffer moves the instant back by that many
    seconds. *)
Lemma add_seconds_epoch (d t : datetime) (delta : Z) :
  datetime.add_seconds d delta = Some t ->
  epoch_seconds t = epoch_seconds d + delta.
Proof.
  intros H. destruct (add_seconds_inv _ _ _ H) as (Ho & Hh & Hm & Hs & _).
  unfold epoch_seconds. rewrite Ho, Hh, Hm, Hs.
  Z.div_mod_to_equations. lia.
Qed.

Lemma add_seconds_second (d t : datetime) :
  0 <= datetime.second d < 60 ->
  datetime.add_seconds d (- IMPORT_DELTA_BUFFER) = Some t ->
  0 <= datetime.second t < 60 /\ datetime.second t <> datetime.second d.
Proof.
  intros Hd H. destruct (add_seconds_inv _ _ _ H) as (_ & _ & _ & Hs & _).
  rewrite Hs. unfold IMPORT_DELTA_BUFFER. Z.div_mod_to_equations. lia.
Qed.

(** ** The stored string *)

Lemma digit_inj (x y : Z) :
  0 <= x <= 9 -> 0 <= y <= 9 -> Datetime.digit x = Datetime.digit y -> x = y.
Proof.
  intros Hx Hy H. unfold Datetime.digit in H.
  apply (f_equal N_of_ascii) in H.
  rewrite !N_ascii_embedding in H by lia. lia.
Qed.

Lemma zfill2_inj (x y : Z) :
  0 <= x < 100 -> 0 <= y < 100 -> Datetime.zfill2 x = Datetime.zfill2 y -> x = y.
Proof.
  intros Hx Hy H. unfold Datetime.zfill2 in H.
  injection H as H1 H2.
  apply digit_inj in H1; [|Z.div_mod_to_equations; lia..].
  apply digit_inj in H2; [|Z.div_mod_to_equations; lia..].
  Z.div_mod_to_equations; lia.
Qed.

(** Two datetimes printed alike have the same seconds. *)
Lemma to_string_second (a b : datetime) (s : string) :
  0 <= datetime.second a < 60 -> 0 <= datetime.second b < 60 ->
  Datetime.to_string a = Some s -> Datetime.to_string b = Some s ->
  datetime.second a = datetime.second b.
Proof.
  intros Ha Hb. unfold Datetime.to_string.
  destruct (_ <? _); [discriminate|]. destruct (_ <? _); [discriminate|].
  intros [= <-]. cbn [Datetime.zfill4 Datetime.zfill2 append].
  intros [= _ _ _ _ _ _ _ _ _ _ _ _ H1 H2].
  apply zfill2_inj; [lia..|]. unfold Datetime.zfill2. now rewrite H1, H2.
Qed.

(** ** The watermark write touches one column *)

Lemma getattr_assign_same (f : from_date_field.t) (v : option string) (r : backend) :
  getattr (assign (set_from_date f v) r) f = v.
Proof. destruct f; reflexivity. Qed.

Lemma getattr_assign_other (f g : from_date_field.t) (v : option string) (r : backend) :
  f <> g -> getattr (assign (set_from_date f v) r) g = getattr r g.
Proof. destruct f, g; intros H; try reflexivity; congruence. Qed.

Lemma assign_from_date_idem (f : from_date_field.t) (v : option string) (r : backend) :
  assign (set_from_date f v) (assign (set_from_date f v) r)
  = assign (set_from_date f v) r.
Proof. destruct f, r; reflexivity. Qed.

(** The rows after the watermark write: those of the recordset have
    the one column set, the others are untouched. *)
Lemma stored_from_date_lookup (self : list Z) (f : from_date_field.t)
      (v : option string) (table : gmap Z backend) (id : Z) :
  stored self [set_from_date f v] table !! id
  = if bool_decide (id ∈ self)
    then assign (set_from_date f v) <$> table !! id
    else table !! id.
Proof.
  unfold stored. induction self as [|a self IH]; simpl.
  - reflexivity.
  - destruct (decide (a = id)) as [->|Hne].
    + rewrite lookup_alter_eq, IH.
      rewrite (bool_decide_eq_true_2 (id ∈ id :: self)) by constructor.
      case_bool_decide; [|reflexivity].
      destruct (table !! id); simpl; [|reflexivity].
      f_equal. apply assign_from_date_idem.
    + rewrite lookup_alter_ne by exact Hne. rewrite IH.
      destruct (decide (id ∈ self)) as [Hin|Hin].
      * rewrite !bool_decide_eq_true_2; auto. now constructor.
      * rewrite !bool_decide_eq_false_2; auto.
        intros H. apply elem_of_cons in H as [->|H]; congruence.
Qed.

(** ** The scheduling pass *)

Lemma valid_second (d : datetime) :
  datetime.valid d = true -> 0 <= datetime.second d < 60.
Proof.
  unfold datetime.valid. rewrite !andb_true_iff. lia.
Qed.

(** The clock is read once in every run of a pass, however it ends. *)
Lemma clock_read_once (now : nat -> datetime)
      (remote_fault : list event -> string -> Z -> option exn)
      (self : list Z) (model : string) (f : from_date_field.t)
      (chg_date_field add_date_field : string) (w : world) :
  clock_reads (_import_from_date now remote_fault self model f chg_date_field
                                 add_date_field w).2
  = S (clock_reads w).
Proof.
  destruct (pass_cases now remote_fault self model f chg_date_field
                       add_date_field w)
    as (new & _ & [(e & ->)|(t & s & _ & _ & _ & ->)]); reflexivity.
Qed.


(** C4.  The dispatch helper puts the earlier instant of the pair it is
    handed first, whichever way round the pair comes; so every fetch a
    pass queues, oldest first or newest first, has a filter whose lower
    bound does not exceed its upper bound. *)
Theorem fetch_windows_ordered (now : nat -> datetime)
        (remote_fault : list event -> string -> Z -> option exn)
        (self : list Z) (model : string) (f : from_date_field.t)
        (chg_date_field add_date_field : string) (w : world) :
  (forall backends start end_ field priority w0,
      exists new,
        (__import_from_date remote_fault backends model start end_ field
                            priority w0).2 = log new w0
        /\ Forall well_ordered new)
  /\ exists new,
      journal (_import_from_date now remote_fault self model f chg_date_field
                                 add_date_field w).2
      = journal w ++ new
      /\ Forall well_ordered new.
Proof.
  split.
  - intros backends start end_ field priority w0.
    destruct (quiet___import_from_date remote_fault backends model start end_
                                       field priority w0) as (new & Hw & Hnew).
    exists new; split; [assumption|].
    eapply Forall_impl; [exact Hnew|]. now intros ev (_ & H & _).
  - destruct (pass_cases now remote_fault self model f chg_date_field
                         add_date_field w)
      as (new & Hnew & [(e & ->)|(t & s & _ & _ & _ & ->)]).
    + exists new; split; [reflexivity|].
      eapply Forall_impl; [exact Hnew|]. now intros ev (_ & H & _).
    + exists (new ++ [written self [set_from_date f (Some s)]]).
      split; [reflexivity|].
      apply Forall_app; split; [|repeat constructor].
      eapply Forall_impl; [exact Hnew|]. now intros ev (_ & H & _).
Qed.

(** C3.  A pass that ends well has read the clock once, at its start;
    what it writes last is the string of that reading moved back by the
    buffer, 30 seconds earlier to the second, and never the string of
    the reading itself. *)
Theorem watermark_is_start_minus_buffer (now : nat -> datetime)
        (remote_fault : list event -> string -> Z -> option exn)
        (self : list Z) (model : string) (f : from_date_field.t)
        (chg_date_field add_date_field : string) (w w' : world) :
  datetime.valid (now (clock_reads w)) = true ->
  _import_from_date now remote_fault self model f chg_date_field add_date_field w
  = (Ok tt, w') ->
  clock_reads w' = S (clock_reads w)
  /\ exists t s new,
      datetime.add_seconds (now (clock_reads w)) (- IMPORT_DELTA_BUFFER) = Some t
      /\ epoch_seconds t = epoch_seconds (now (clock_reads w)) - 30
      /\ Datetime.to_string t = Some s
      /\ journal w' = journal w ++ new ++ [written self [set_from_date f (Some s)]]
      /\ Forall (fun ev => is_written ev = false) new
      /\ (forall id r, In id self -> db w' !! id = Some r -> getattr r f = Some s)
      /\ Datetime.to_string (now (clock_reads w)) <> Some s.
Proof.
  intros Hvalid Hrun.
  destruct (pass_cases now remote_fault self model f chg_date_field
                       add_date_field w)
    as (new & Hnew & [(e & He)|(t & s & Ht & Hs & _ & Hok)]); [congruence|].
  rewrite Hok in Hrun. injection Hrun as <-.
  split; [reflexivity|]. exists t, s, new. repeat split; auto.
  - apply (add_seconds_epoch _ _ _ Ht).
  - eapply Forall_impl; [exact Hnew|]. now intros ev [H _].
  - intros id r Hin. cbn [db after_write].
    rewrite stored_from_date_lookup.
    rewrite bool_decide_eq_true_2 by now apply list_elem_of_In.
    destruct (db w !! id); [|discriminate].
    intros [= <-]. apply getattr_assign_same.
  - intros Hsame.
    destruct (add_seconds_second _ _ (valid_second _ Hvalid) Ht) as [Hr Hne].
    apply Hne. eapply to_string_second; eauto using valid_second.
Qed.







Lemma watermark_is_start_minus_buffer_example :
  clock_reads (example_pass false).2 = S (clock_reads (example_world false))
  /\ exists t s new,
      datetime.add_seconds mar15 (- IMPORT_DELTA_BUFFER) = Some t
      /\ epoch_seconds t = epoch_seconds mar15 - 30
      /\ Datetime.to_string t = Some s
      /\ journal (example_pass false).2
         = journal (example_world false) ++ new
           ++ [written [1] [set_from_date from_date_field.patients (Some s)]]
      /\ Forall (fun ev => is_written ev = false) new
      /\ (forall id r, In id [1] -> db (example_pass false).2 !! id = Some r ->
                       getattr r from_date_field.patients = Some s)
      /\ Datetime.to_string mar15 <> Some s.
Proof.
  apply (watermark_is_start_minus_buffer
           (fun _ => mar15) no_fault [1] "carepoint.medical.patient"
           from_date_field.patients "chg_date" "add_date"
           (example_world false) (example_pass false).2).
  - vm_compute. reflexivity.
  - vm_compute. reflexivity.
Defined.

(** When the stored instant is the pass start itself there is nothing
    to walk, in either direction. *)
Lemma windows_degenerate (inverse : bool) (d : datetime) : windows inverse d d = [].
Proof.
  unfold windows. rewrite iter_rrule_cons, between_empty.
  destruct inverse; cbn [rev app pairs_walked]; now rewrite eqb_refl.
Qed.

Lemma degenerate_events (model : string) (f : from_date_field.t)
      (chg_date_field add_date_field : string) (to_date : datetime)
      (self : list Z) (table : gmap Z backend) :
  Forall (fun id => exists r, table !! id = Some r
                              /\ Datetime.from_string (resolved f r) = Some to_date)
         self ->
  pass_events model f chg_date_field add_date_field to_date self table
  = map guard_event self.
Proof.
  unfold pass_events. induction 1 as [|id self (r & Hr & Hfrom) _ IH].
  - reflexivity.
  - cbn [omap list_omap map]. rewrite Hr. cbn [fmap option_fmap option_map concat].
    rewrite IH. unfold backend_events. rewrite Hfrom, windows_degenerate.
    reflexivity.
Qed.

(** C8.  When every backend of the recordset starts from the very
    instant the pass started at, and the remote database answers, the
    pass ends well having dispatched no window and queued no fetch; the
    Structure Guard still ran, once per backend, and nothing else reached
    the remote database; the watermark is still written, as the pass
    start minus the buffer. *)
Theorem degenerate_pass (now : nat -> datetime)
        (remote_fault : list event -> string -> Z -> option exn)
        (self : list Z) (model : string) (f : from_date_field.t)
        (chg_date_field add_date_field : string) (w : world)
        (t : datetime) (s : string) :
  (forall h m b, remote_fault h m b = None) ->
  Forall (fun id => exists r, db w !! id = Some r
                              /\ Datetime.from_string (resolved f r)
                                 = Some (now (clock_reads w))) self ->
  datetime.add_seconds (now (clock_reads w)) (- IMPORT_DELTA_BUFFER) = Some t ->
  Datetime.to_string t = Some s ->
  exists w',
    _import_from_date now remote_fault self model f chg_date_field add_date_field w
    = (Ok tt, w')
    /\ journal w' = journal w ++ map guard_event self
                    ++ [written self [set_from_date f (Some s)]]
    /\ List.filter is_delay (map guard_event self) = []
    /\ List.filter remote_call (map guard_event self) = map guard_event self
    /\ (forall id r, In id self -> db w' !! id = Some r -> getattr r f = Some s).
Proof.
  intros Hfree Hsame Ht Hs.
  assert (Hready : ready f (db w) self).
  { unfold ready. eapply Forall_impl; [exact Hsame|].
    intros id (r & Hr & Hfrom). exists r; split; [assumption|]. now rewrite Hfrom. }
  eexists. split; [apply (pass_run now remote_fault Hfree _ _ _ _ _ _ t s Hready Ht Hs)|].
  rewrite (degenerate_events _ _ _ _ _ _ _ Hsame).
  repeat split.
  - clear. induction self as [|id self IH]; [reflexivity|]. exact IH.
  - clear. induction self as [|id self IH]; [reflexivity|].
    cbn. now rewrite IH.
  - intros id r Hin. cbn [db after_write].
    rewrite stored_from_date_lookup.
    rewrite bool_decide_eq_true_2 by now apply list_elem_of_In.
    destruct (db w !! id); [|discriminate].
    intros [= <-]. apply getattr_assign_same.
Qed.

Lemma degenerate_pass_example :
  exists w',
    _import_from_date (fun _ => mar15) no_fault [1] "carepoint.medical.patient"
                      from_date_field.patients "chg_date" "add_date"
                      caught_up_world
    = (Ok tt, w')
    /\ journal w' = [] ++ map guard_event [1]
                    ++ [written [1] [set_from_date from_date_field.patients
                                                   (Some "2020-03-14 23:59:30")]]
    /\ List.filter is_delay (map guard_event [1]) = []
    /\ List.filter remote_call (map guard_event [1]) = map guard_event [1]
    /\ (forall id r, In id [1] -> db w' !! id = Some r ->
                     getattr r from_date_field.patients = Some "2020-03-14 23:59:30").
Proof.
  apply (degenerate_pass
           (fun _ => mar15) no_fault [1] "carepoint.medical.patient"
           from_date_field.patients "chg_date" "add_date"
           caught_up_world
           (datetime.mk 2020 3 14 23 59 30 0) "2020-03-14 23:59:30").
  - reflexivity.
  - constructor; [|constructor]. eexists. split; vm_compute; reflexivity.
  - vm_compute. reflexivity.
  - vm_compute. reflexivity.
Defined.

Lemma backend_events_not_written (model : string) (f : from_date_field.t)
      (chg_date_field add_date_field : string) (to_date : datetime)
      (id : Z) (r : backend) :
  List.filter is_written
              (backend_events model f chg_date_field add_date_field to_date id r)
  = [].
Proof.
  unfold backend_events. cbn [List.filter guard_event is_written].
  destruct (Datetime.from_string _); [|reflexivity].
  induction (windows _ _ _) as [|win wins IH]; [reflexivity|].
  cbn. exact IH.
Qed.

Lemma pass_events_not_written (model : string) (f : from_date_field.t)
      (chg_date_field add_date_field : string) (to_date : datetime)
      (self : list Z) (table : gmap Z backend) :
  List.filter is_written
              (pass_events model f chg_date_field add_date_field to_date self table)
  = [].
Proof.
  unfold pass_events. induction self as [|id self IH]; [reflexivity|].
  cbn [omap list_omap]. destruct (table !! id) as [r|]; cbn [fmap option_fmap option_map].
  - cbn [concat]. rewrite List.filter_app, backend_events_not_written. exact IH.
  - exact IH.
Qed.

(** C10.  A pass that ends well writes once, at its end: every event
    before the write is a guard import or a queued fetch, generated per
    backend from that backend's own row; the write stores one value, the
    pass start minus the buffer, in the named watermark column of every
    backend of the recordset, and leaves every other column and every
    other backend as they were. *)
Theorem pass_writes_once (now : nat -> datetime)
        (remote_fault : list event -> string -> Z -> option exn)
        (self : list Z) (model : string) (f : from_date_field.t)
        (chg_date_field add_date_field : string) (w : world)
        (t : datetime) (s : string) :
  (forall h m b, remote_fault h m b = None) ->
  ready f (db w) self ->
  datetime.add_seconds (now (clock_reads w)) (- IMPORT_DELTA_BUFFER) = Some t ->
  Datetime.to_string t = Some s ->
  exists w',
    _import_from_date now remote_fault self model f chg_date_field add_date_field w
    = (Ok tt, w')
    /\ journal w'
       = journal w
         ++ pass_events model f chg_date_field add_date_field
                        (now (clock_reads w)) self (db w)
         ++ [written self [set_from_date f (Some s)]]
    /\ List.filter is_written
         (pass_events model f chg_date_field add_date_field
                      (now (clock_reads w)) self (db w)) = []
    /\ (forall id, In id self ->
                   db w' !! id = assign (set_from_date f (Some s)) <$> db w !! id)
    /\ (forall id, ~ In id self -> db w' !! id = db w !! id)
    /\ (forall r,
           let r' := assign (set_from_date f (Some s)) r in
           getattr r' f = Some s
           /\ (forall g, f <> g -> getattr r' g = getattr r g)
           /\ date_data_start r' = date_data_start r
           /\ import_inverse r' = import_inverse r
           /\ company_id r' = company_id r
           /\ is_default r' = is_default r
           /\ active r' = active r)
    /\ tables w' = tables w.
Proof.
  intros Hfree Hready Ht Hs.
  eexists. split; [apply (pass_run now remote_fault Hfree _ _ _ _ _ _ t s Hready Ht Hs)|].
  split; [reflexivity|]. split; [apply pass_events_not_written|].
  split; [|split; [|split; [|reflexivity]]].
  - intros id Hin. cbn [db after_write]. rewrite stored_from_date_lookup.
    now rewrite bool_decide_eq_true_2 by now apply list_elem_of_In.
  - intros id Hin. cbn [db after_write]. rewrite stored_from_date_lookup.
    rewrite bool_decide_eq_false_2; [reflexivity|].
    intros H; apply Hin. now apply list_elem_of_In.
  - intros r r'. subst r'. split; [apply getattr_assign_same|].
    split; [intros g Hg; now apply getattr_assign_other|].
    repeat split.
Qed.

(** ** The bypass entry points *)

Lemma for_each_nothing {A} (xs : list A) (body : A -> M unit) (w : world) :
  (forall x, In x xs -> body x w = (Ok tt, w)) -> for_each xs body w = (Ok tt, w).
Proof.
  induction xs as [|x xs IH]; intros H; cbn [for_each]; [reflexivity|].
  rewrite (bind_ok _ _ w tt w) by (apply H; now left).
  apply IH. intros y Hy; apply H; now right.
Qed.

(** X15.  [resync_all] ends well only when there is no binding at all;
    with a binding to resync it raises on the first one, having queued
    nothing and changed nothing. *)
Lemma resync_all_run (binding_model : string) (priority : Z) (w : world) :
  resync_all binding_model priority w
  = if forallb (fun r => match carepoint_bind_ids r with [] => true | _ => false end)
               (default [] (tables w !! binding_model))
    then (Ok tt, w)
    else (Raise (NameError "bindind"), w).
Proof.
  unfold resync_all.
  rewrite (bind_ok _ _ w (default [] (tables w !! binding_model)) w) by reflexivity.
  induction (default [] (tables w !! binding_model)) as [|r rs IH]; [reflexivity|].
  cbn [for_each forallb]. destruct (carepoint_bind_ids r) as [|b bs].
  - cbn [for_each andb]. now rewrite (bind_ok _ _ w tt w) by reflexivity.
  - reflexivity.
Qed.

(** C6, at a model with one record that has one binding: no forced
    import is queued; the call raises [NameError] on the misspelt name. *)
Theorem resync_all_one_binding :
  let w := world_of ∅ {[ "carepoint.carepoint.address" :=
                           [ {| record_id := 7;
                                carepoint_bind_ids :=
                                  [ {| backend_id := 1; carepoint_id := 42 |} ] |} ] ]} in
  resync_all "carepoint.carepoint.address" 10 w = (Raise (NameError "bindind"), w)
  /\ List.filter is_forced
       (journal (resync_all "carepoint.carepoint.address" 10 w).2) = [].
Proof. split; vm_compute; reflexivity. Qed.

(** C7, at any arguments: no forced import is queued; the call raises
    [NameError] on the name [priority], which the function does not
    bind. *)
Theorem force_sync_raises (binding_model : string) (remote_pk : Z)
        (backend : backend_arg) (w : world) :
  force_sync binding_model remote_pk backend w = (Raise (NameError "priority"), w)
  /\ journal (force_sync binding_model remote_pk backend w).2 = journal w.
Proof. split; reflexivity. Qed.

(** ** The default-backend constraint *)

(** What the search of the constraint selects: the active default rows
    of the company. *)
Lemma selected_spec (c : option Z) (table : gmap Z backend) (i : Z) (r : backend) :
  In (i, r) (selected [company_id_eq c; is_default_eq true] table)
  <-> table !! i = Some r /\ active_default c r.
Proof.
  unfold selected, where_calc, active_default. cbn [existsb on_active orb].
  rewrite filter_In, <- list_elem_of_In, elem_of_map_to_list.
  cbn [forallb holds snd].
  rewrite !andb_true_iff, bool_decide_eq_true.
  destruct (is_default r), (active r); cbn; intuition congruence.
Qed.

Lemma filter_NoDup {A} (keep : A -> bool) (l : list A) :
  NoDup l -> NoDup (List.filter keep l).
Proof.
  induction 1 as [|x l Hx Hl IH]; cbn; [constructor|].
  destruct (keep x); [|assumption].
  constructor; [|assumption].
  rewrite list_elem_of_In, filter_In, <- list_elem_of_In. tauto.
Qed.

Lemma selected_NoDup (domain : list leaf) (table : gmap Z backend) :
  NoDup (selected domain table).
Proof. unfold selected. apply filter_NoDup, NoDup_map_to_list. Qed.

Lemma short_list_unique {A} (l : list A) (x y : A) :
  (length l <= 1)%nat -> In x l -> In y l -> x = y.
Proof.
  destruct l as [|a [|b l]]; cbn; intros H Hx Hy; try lia; try tauto.
  destruct Hx as [<-|[]], Hy as [<-|[]]. reflexivity.
Qed.

Lemma long_list_two {A} (l : list A) :
  NoDup l -> (1 < length l)%nat -> exists x y, In x l /\ In y l /\ x <> y.
Proof.
  destruct l as [|a [|b l]]; cbn; intros Hnd H; try lia.
  exists a, b. repeat split; auto.
  intros ->. apply NoDup_cons in Hnd as [Hnd _]. apply Hnd. now left.
Qed.

(** The count of the constraint is at most one exactly when the
    company has at most one active default backend. *)
Lemma count_one_active_default (c : option Z) (table : gmap Z backend) :
  (1 <? Z.of_nat (length (map fst (selected [company_id_eq c; is_default_eq true]
                                            table)))) = false
  <-> one_active_default table c.
Proof.
  rewrite length_map, Z.ltb_ge. split.
  - intros Hlen i j ri rj Hi Hj Hdi Hdj.
    assert (H : (i, ri) = (j, rj)).
    { apply (short_list_unique
               (selected [company_id_eq c; is_default_eq true] table));
        [lia|now apply selected_spec..]. }
    congruence.
  - intros Hone.
    destruct (le_lt_dec (length (selected [company_id_eq c; is_default_eq true]
                                          table)) 1) as [Hle|Hgt]; [lia|].
    destruct (long_list_two _ (selected_NoDup _ table) Hgt)
      as ([i ri] & [j rj] & Hi & Hj & Hne).
    apply selected_spec in Hi as [Hi Hdi], Hj as [Hj Hdj].
    exfalso. apply Hne. assert (i = j) by (eapply Hone; eauto). subst j.
    congruence.
Qed.

(** The constraint leaves the world as it is; it passes exactly when
    every record of the recordset is in the table and its company has at
    most one active default backend. *)
Lemma check_default_ok (self : list Z) (w : world) :
  (forall id, In id self ->
              exists r, db w !! id = Some r
                        /\ one_active_default (db w) (company_id r)) ->
  _check_default_for_company self w = (Ok tt, w).
Proof.
  intros H. unfold _check_default_for_company. apply for_each_nothing.
  intros id Hin. destruct (H id Hin) as (r & Hr & Hone).
  rewrite (bind_ok _ _ w r w) by (unfold browse; now rewrite Hr).
  erewrite bind_ok by reflexivity.
  apply count_one_active_default in Hone. now rewrite Hone.
Qed.

Lemma check_default_raise (self : list Z) (w : world) (id : Z) (r : backend) :
  missing self (db w) = None ->
  In id self -> db w !! id = Some r ->
  ~ one_active_default (db w) (company_id r) ->
  _check_default_for_company self w = (Raise default_taken, w).
Proof.
  unfold _check_default_for_company, missing.
  induction self as [|a self IH]; intros Hmiss Hin Hr Hnot; [destruct Hin|].
  cbn [for_each]. cbn [find] in Hmiss.
  destruct (db w !! a) as [ra|] eqn:Ha;
    [|rewrite bool_decide_eq_true_2 in Hmiss by reflexivity; discriminate].
  rewrite bool_decide_eq_false_2 in Hmiss by discriminate.
  destruct (1 <? Z.of_nat (length (map fst (selected [company_id_eq (company_id ra);
                                                    is_default_eq true] (db w)))))
    eqn:Hcount.
  - apply bind_raise.
    rewrite (bind_ok _ _ w ra w) by (unfold browse; now rewrite Ha).
    erewrite bind_ok by reflexivity. cbn [search fst]. now rewrite Hcount.
  - rewrite (bind_ok _ _ w tt w).
    + apply IH; auto. destruct Hin as [->|Hin]; [|assumption].
      exfalso. apply Hnot. apply count_one_active_default.
      rewrite Hr in Ha. injection Ha as ->. exact Hcount.
    + rewrite (bind_ok _ _ w ra w) by (unfold browse; now rewrite Ha).
      erewrite bind_ok by reflexivity. cbn [search fst]. now rewrite Hcount.
Qed.

Lemma check_default_world (self : list Z) (w : world) :
  (_check_default_for_company self w).2 = w.
Proof.
  assert (H : quiet (fun _ => False) (_check_default_for_company self)).
  { unfold _check_default_for_company. apply quiet_for_each; intros id.
    apply quiet_bind; [apply quiet_browse|intros r].
    apply quiet_bind; [apply quiet_search|intros found].
    destruct (_ <? _); [apply quiet_raise|apply quiet_ret]. }
  destruct (H w) as (new & -> & Hnew).
  destruct new as [|ev new]; [apply log_nil|].
  now inversion Hnew.
Qed.

Lemma stored_notin (self : list Z) (vals : list assignment)
      (table : gmap Z backend) (id : Z) :
  ~ In id self -> stored self vals table !! id = table !! id.
Proof.
  unfold stored. induction self as [|a self IH]; cbn; intros Hin; [reflexivity|].
  rewrite lookup_alter_ne by tauto. apply IH. tauto.
Qed.

Lemma stored_none (self : list Z) (vals : list assignment)
      (table : gmap Z backend) (id : Z) :
  stored self vals table !! id = None <-> table !! id = None.
Proof.
  unfold stored. induction self as [|a self IH]; cbn; [tauto|].
  destruct (decide (a = id)) as [->|Hne].
  - rewrite lookup_alter_eq, fmap_None. exact IH.
  - rewrite lookup_alter_ne by exact Hne. exact IH.
Qed.

Lemma stored_missing (self ids : list Z) (vals : list assignment)
      (table : gmap Z backend) :
  missing ids (stored self vals table) = missing ids table.
Proof.
  unfold missing. induction ids as [|a ids IH]; cbn [find]; [reflexivity|].
  rewrite IH.
  now rewrite (bool_decide_ext _ _ (stored_none self vals table a)).
Qed.

Lemma one_active_default_dec (table : gmap Z backend) (c : option Z) :
  one_active_default table c \/ ~ one_active_default table c.
Proof.
  destruct (1 <? Z.of_nat (length (map fst (selected [company_id_eq c;
                                                       is_default_eq true] table))))
    eqn:Hcount.
  - right. intros H. apply count_one_active_default in H. congruence.
  - left. now apply count_one_active_default.
Qed.

(** A write that touches [is_default] or [company_id]: how it ends. *)
Lemma write_constrained (self : list Z) (vals : list assignment) (w : world) :
  existsb constrains vals = true -> missing self (db w) = None ->
  write self vals w
  = match _check_default_for_company self
            {| db := stored self vals (db w); tables := tables w;
               journal := journal w ++ [written self vals];
               clock_reads := clock_reads w |} with
    | (Ok _, w') => (Ok tt, w')
    | (Raise e, _) => (Raise e, w)
    end.
Proof. intros Hc Hm. unfold write. now rewrite Hm, Hc. Qed.

(** C9 (as the code has it).  A write of [is_default] or [company_id]
    is checked on the rows as written, among active backends: if the
    company of a written backend would have two active default backends
    the write is refused with the validation error and the table stays
    as it was; after a write that is accepted the company of every
    written backend has at most one active default backend, and if every
    company had at most one before, every company has at most one
    after. *)
Theorem default_constraint_on_write (self : list Z) (vals : list assignment)
        (w : world) :
  existsb constrains vals = true ->
  missing self (db w) = None ->
  ((exists id r, In id self
                 /\ stored self vals (db w) !! id = Some r
                 /\ ~ one_active_default (stored self vals (db w)) (company_id r)) ->
   write self vals w = (Raise default_taken, w))
  /\ (forall w',
         write self vals w = (Ok tt, w') ->
         db w' = stored self vals (db w)
         /\ (forall id r, In id self -> db w' !! id = Some r ->
                          one_active_default (db w') (company_id r))
         /\ ((forall c, one_active_default (db w) c) ->
             forall c, one_active_default (db w') c)).
Proof.
  intros Hc Hm. rewrite (write_constrained _ _ _ Hc Hm).
  set (ws := {| db := stored self vals (db w); tables := tables w;
                journal := journal w ++ [written self vals];
                clock_reads := clock_reads w |}).
  assert (Hms : missing self (db ws) = None)
    by (cbn [db ws]; now rewrite stored_missing).
  split.
  - intros (id & r & Hin & Hr & Hnot).
    now rewrite (check_default_raise self ws id r Hms Hin Hr Hnot).
  - intros w' Hrun.
    pose proof (check_default_world self ws) as Hw.
    destruct (_check_default_for_company self ws) as [[u|e] w''] eqn:Hchk;
      [|discriminate].
    cbn [snd] in Hw. subst w''. injection Hrun as <-.
    assert (Hself : forall id r, In id self -> db ws !! id = Some r ->
                                 one_active_default (db ws) (company_id r)).
    { intros id r Hin Hr.
      destruct (one_active_default_dec (db ws) (company_id r)) as [H|H];
        [assumption|].
      rewrite (check_default_raise self ws id r Hms Hin Hr H) in Hchk.
      discriminate. }
    split; [reflexivity|]. split; [exact Hself|].
    intros Hbefore c i j ri rj Hi Hj Hdi Hdj.
    destruct Hdi as (Hci & Hdi & Hai), Hdj as (Hcj & Hdj & Haj).
    destruct (in_dec Z.eq_dec i self) as [Hin|Hin].
    { apply (Hself i ri Hin Hi i j ri rj Hi Hj);
        unfold active_default; repeat split; congruence. }
    destruct (in_dec Z.eq_dec j self) as [Hjn|Hjn].
    { apply (Hself j rj Hjn Hj i j ri rj Hi Hj);
        unfold active_default; repeat split; congruence. }
    cbn [db ws] in Hi, Hj. rewrite stored_notin in Hi, Hj by assumption.
    apply (Hbefore c i j ri rj Hi Hj);
      unfold active_default; repeat split; congruence.
Qed.

Lemma default_constraint_on_write_example :
  ((exists id r, In id [2]
                 /\ stored [2] [set_is_default true] (db (two_backends true)) !! id
                    = Some r
                 /\ ~ one_active_default
                      (stored [2] [set_is_default true] (db (two_backends true)))
                      (company_id r)) ->
   write [2] [set_is_default true] (two_backends true)
   = (Raise default_taken, two_backends true))
  /\ (forall w',
         write [2] [set_is_default true] (two_backends true) = (Ok tt, w') ->
         db w' = stored [2] [set_is_default true] (db (two_backends true))
         /\ (forall id r, In id [2] -> db w' !! id = Some r ->
                          one_active_default (db w') (company_id r))
         /\ ((forall c, one_active_default (db (two_backends true)) c) ->
             forall c, one_active_default (db w') c)).
Proof.
  apply (default_constraint_on_write [2] [set_is_default true] (two_backends true)).
  - reflexivity.
  - vm_compute. reflexivity.
Defined.

(** C9 (as stated) fails when the existing default is archived: the
    write that marks a second backend of the company as default is
    accepted, and two backends of the company are marked [is_default]. *)
Lemma archived_default_not_counted :
  exists w',
    write [2] [set_is_default true] (two_backends false) = (Ok tt, w')
    /\ (is_default <$> db w' !! 1) = Some true
    /\ (is_default <$> db w' !! 2) = Some true
    /\ (company_id <$> db w' !! 1) = (company_id <$> db w' !! 2).
Proof.
  eexists. split; [vm_compute; reflexivity|].
  repeat split; vm_compute; reflexivity.
Qed.

Lemma pass_writes_once_example :
  exists w',
    _import_from_date (fun _ => mar15) no_fault [1; 2] "carepoint.medical.patient"
                      from_date_field.patients "chg_date" "add_date" staggered_world
    = (Ok tt, w')
    /\ journal w'
       = journal staggered_world
         ++ pass_events "carepoint.medical.patient" from_date_field.patients
                        "chg_date" "add_date" mar15 [1; 2] (db staggered_world)
         ++ [written [1; 2] [set_from_date from_date_field.patients
                                           (Some "2020-03-14 23:59:30")]]
    /\ List.filter is_written
         (pass_events "carepoint.medical.patient" from_date_field.patients
                      "chg_date" "add_date" mar15 [1; 2] (db staggered_world)) = []
    /\ (forall id, In id [1; 2] ->
                   db w' !! id
                   = assign (set_from_date from_date_field.patients
                                           (Some "2020-03-14 23:59:30"))
                       <$> db staggered_world !! id)
    /\ (forall id, ~ In id [1; 2] -> db w' !! id = db staggered_world !! id)
    /\ (forall r,
           let r' := assign (set_from_date from_date_field.patients
                                           (Some "2020-03-14 23:59:30")) r in
           getattr r' from_date_field.patients = Some "2020-03-14 23:59:30"
           /\ (forall g, from_date_field.patients <> g -> getattr r' g = getattr r g)
           /\ date_data_start r' = date_data_start r
           /\ import_inverse r' = import_inverse r
           /\ company_id r' = company_id r
           /\ is_default r' = is_default r
           /\ active r' = active r)
    /\ tables w' = tables staggered_world.
Proof.
  apply (pass_writes_once
           (fun _ => mar15) no_fault [1; 2] "carepoint.medical.patient"
           from_date_field.patients "chg_date" "add_date" staggered_world
           (datetime.mk 2020 3 14 23 59 30 0) "2020-03-14 23:59:30").
  - reflexivity.
  - constructor; [|constructor; [|constructor]].
    + eexists. split; [vm_compute; reflexivity|]. exists jan1. vm_compute. reflexivity.
    + eexists. split; [vm_compute; reflexivity|]. exists mar1. vm_compute. reflexivity.
  - vm_compute. reflexivity.
  - vm_compute. reflexivity.
Defined.

(** ** More on the windows of a pass *)

Lemma last_cons (a b : datetime) (l : list datetime) :
  List.last (b :: l) a = List.last l b.
Proof.
  revert a b; induction l as [|c l IH]; intros a b; [reflexivity|].
  change (List.last (b :: c :: l) a) with (List.last (c :: l) a).
  rewrite IH. symmetry. apply IH.
Qed.

Lemma consecutive_fst (a : datetime) (l : list datetime) :
  map fst (consecutive (a :: l)) ++ [List.last l a] = a :: l.
Proof.
  revert a; induction l as [|b l IH]; intros a; [reflexivity|].
  change (consecutive (a :: b :: l)) with ((a, b) :: consecutive (b :: l)).
  cbn [map fst app]. f_equal. rewrite last_cons. apply IH.
Qed.

Lemma consecutive_snd (a : datetime) (l : list datetime) :
  map snd (consecutive (a :: l)) = l.
Proof.
  revert a; induction l as [|b l IH]; intros a; [reflexivity|].
  change (consecutive (a :: b :: l)) with ((a, b) :: consecutive (b :: l)).
  cbn [map snd]. f_equal. apply IH.
Qed.

Lemma consecutive_In (l : list datetime) (p : datetime * datetime) :
  In p (consecutive l) -> In p.1 l /\ In p.2 l.
Proof.
  induction l as [|a l IH]; [intros []|].
  destruct l as [|b l]; [intros []|].
  change (consecutive (a :: b :: l)) with ((a, b) :: consecutive (b :: l)).
  intros [<-|H]; cbn [fst snd].
  - split; [now left|right; now left].
  - destruct (IH H) as [H1 H2]. split; now right.
Qed.

Lemma consecutive_increasing (l : list datetime) :
  StronglySorted datetime.lt l ->
  Forall (fun p => datetime.lt p.1 p.2) (consecutive l).
Proof.
  induction 1 as [|a l Hs IH Ha]; [constructor|].
  destruct l as [|b l]; [constructor|].
  change (consecutive (a :: b :: l)) with ((a, b) :: consecutive (b :: l)).
  constructor; [|exact IH]. now inversion Ha.
Qed.

(** Every boundary lies between the two ends. *)
Lemma iter_rrule_within (start end_ : datetime) (x : datetime) :
  datetime.lt start end_ -> In x (__iter_rrule start end_ true) ->
  datetime.le start x /\ datetime.le x end_.
Proof.
  intros Hlt. rewrite iter_rrule_cons. intros [<-|Hx].
  - split; [apply le_refl|now apply lt_le].
  - apply in_app_or in Hx as [Hx|[<-|[]]].
    + destruct (between_spec start start end_) as [_ Hb].
      rewrite Forall_forall in Hb. apply list_elem_of_In, Hb in Hx as [H1 H2].
      split; now apply lt_le.
    + split; [now apply lt_le|apply le_refl].
Qed.

(** X1.  Oldest first, and with the stored instant before the pass
    start, the windows are the consecutive boundary pairs: each window
    starts where the one before it ended, the first starts at the stored
    instant, the last ends at the pass start, and no window is empty. *)
Theorem forward_windows_tile (from_date to_date : datetime) :
  datetime.lt from_date to_date ->
  let ws := windows false from_date to_date in
  map fst ws ++ [to_date] = __iter_rrule from_date to_date true
  /\ from_date :: map snd ws = __iter_rrule from_date to_date true
  /\ Forall (fun p => datetime.lt p.1 p.2) ws.
Proof.
  intros Hlt ws. subst ws. rewrite (windows_forward _ _ Hlt).
  pose proof (iter_rrule_sorted _ _ Hlt) as Hs.
  rewrite iter_rrule_cons in *.
  set (l := rrule.between from_date from_date to_date ++ [to_date]) in *.
  repeat split.
  - rewrite <- (consecutive_fst from_date l) at 2. f_equal. f_equal.
    subst l. now rewrite last_last.
  - now rewrite consecutive_snd.
  - now apply consecutive_increasing.
Qed.

Lemma forward_windows_tile_example :
  let ws := windows false jan1 mar15 in
  map fst ws ++ [mar15] = __iter_rrule jan1 mar15 true
  /\ jan1 :: map snd ws = __iter_rrule jan1 mar15 true
  /\ Forall (fun p => datetime.lt p.1 p.2) ws.
Proof. apply (forward_windows_tile jan1 mar15). reflexivity. Defined.

(** X2.  In either direction, every window a pass dispatches lies
    within the range from the stored instant to the pass start, and is
    not empty. *)
Theorem windows_within_range (inverse : bool) (from_date to_date : datetime) :
  datetime.lt from_date to_date ->
  Forall (fun p => datetime.le from_date p.1
                   /\ datetime.lt p.1 p.2
                   /\ datetime.le p.2 to_date)
         (windows inverse from_date to_date).
Proof.
  intros Hlt.
  assert (Hcons : Forall (fun p => datetime.le from_date p.1
                                   /\ datetime.lt p.1 p.2
                                   /\ datetime.le p.2 to_date)
                         (consecutive (__iter_rrule from_date to_date true))).
  { pose proof (consecutive_increasing _ (iter_rrule_sorted _ _ Hlt)) as Hinc.
    rewrite Forall_forall in *. intros p Hp.
    pose proof Hp as Hin. apply list_elem_of_In, consecutive_In in Hin as [H1 H2].
    split; [apply (iter_rrule_within _ _ _ Hlt H1)|].
    split; [now apply Hinc|apply (iter_rrule_within _ _ _ Hlt H2)]. }
  destruct inverse.
  - rewrite (windows_inverse _ _ Hlt). constructor.
    + cbn. split; [apply le_refl|]. split; [assumption|apply le_refl].
    + rewrite Forall_forall in *. intros p Hp. apply Hcons.
      apply list_elem_of_In. apply list_elem_of_In in Hp. now apply in_rev.
  - now rewrite (windows_forward _ _ Hlt).
Qed.

Lemma windows_within_range_example :
  Forall (fun p => datetime.le jan1 p.1 /\ datetime.lt p.1 p.2
                   /\ datetime.le p.2 mar15)
         (windows true jan1 mar15).
Proof. apply (windows_within_range true jan1 mar15). reflexivity. Defined.

Lemma between_backwards (dtstart after before : datetime) :
  datetime.lt before after -> rrule.between dtstart after before = [].
Proof.
  intros Hlt. destruct (between_spec dtstart after before) as [_ H].
  destruct (rrule.between dtstart after before) as [|x l]; [reflexivity|].
  inversion H as [|? ? [H1 H2] _]; subst.
  exfalso. apply (lt_irrefl after).
  eapply lt_trans; [exact H1|]. eapply lt_trans; eauto.
Qed.

(** X3.  A stored instant later than the pass start: oldest first the
    pass dispatches the one window from the pass start to the stored
    instant; newest first it dispatches that same window twice. *)
Theorem windows_of_future_watermark (from_date to_date : datetime) :
  datetime.lt to_date from_date ->
  windows false from_date to_date = [(to_date, from_date)]
  /\ windows true from_date to_date = [(to_date, from_date); (to_date, from_date)].
Proof.
  intros Hlt. unfold windows.
  rewrite iter_rrule_cons, (between_backwards _ _ _ Hlt).
  assert (Hne : datetime.eqb from_date to_date = false).
  { unfold datetime.eqb. rewrite (compare_antisym to_date from_date).
    unfold datetime.lt in Hlt. now rewrite Hlt. }
  assert (Hne' : datetime.eqb to_date from_date = false) by now apply lt_neq.
  cbn [app rev pairs_walked]. rewrite eqb_refl, Hne, Hne'.
  unfold ordered. apply ltb_lt in Hlt as Hb. rewrite Hb.
  rewrite (lt_asym _ _ Hlt). split; reflexivity.
Qed.

Lemma windows_of_future_watermark_example :
  windows false mar15 jan1 = [(jan1, mar15)]
  /\ windows true mar15 jan1 = [(jan1, mar15); (jan1, mar15)].
Proof. apply (windows_of_future_watermark mar15 jan1). reflexivity. Defined.

(** X4.  With the stored instant before the pass start, the newest-first
    walk dispatches the whole range first and then the windows of the
    oldest-first walk, last to first. *)
Theorem inverse_windows_order (from_date to_date : datetime) :
  datetime.lt from_date to_date ->
  windows true from_date to_date
  = (from_date, to_date) :: rev (windows false from_date to_date).
Proof.
  intros Hlt. now rewrite (windows_inverse _ _ Hlt), (windows_forward _ _ Hlt).
Qed.

Lemma inverse_windows_order_example :
  windows true jan1 mar15 = (jan1, mar15) :: rev (windows false jan1 mar15).
Proof. apply (inverse_windows_order jan1 mar15). reflexivity. Defined.

Lemma same_but_refl (f : from_date_field.t) (r : backend) : same_but f r r.
Proof. repeat split. Qed.

Lemma same_but_assign (f : from_date_field.t) (v : option string) (r : backend) :
  same_but f r (assign (set_from_date f v) r).
Proof.
  split; [intros g Hg; now apply getattr_assign_other|]. repeat split.
Qed.

Lemma pass_rows (now : nat -> datetime)
      (remote_fault : list event -> string -> Z -> option exn)
      (self : list Z) (model : string) (f : from_date_field.t)
      (chg_date_field add_date_field : string) (w : world) (id : Z) :
  match db w !! id,
        db (_import_from_date now remote_fault self model f chg_date_field
                              add_date_field w).2 !! id with
  | Some r, Some r' => same_but f r r'
  | None, None => True
  | _, _ => False
  end.
Proof.
  destruct (pass_cases now remote_fault self model f chg_date_field
                       add_date_field w)
    as (new & _ & [(e & ->)|(t & s & _ & _ & _ & ->)]); cbn [snd].
  - cbn [db log tick]. destruct (db w !! id); [apply same_but_refl|exact I].
  - cbn [db after_write]. rewrite stored_from_date_lookup.
    destruct (db w !! id) as [r|]; case_bool_decide; cbn;
      auto using same_but_refl, same_but_assign.
Qed.

(** X5.  Whatever the environment and however the pass ends, it reads
    the clock once, only appends to the journal, leaves the bound records
    alone, neither adds nor removes a backend, and changes no column of
    any backend other than the watermark column it was given. *)
Theorem pass_frame (now : nat -> datetime)
        (remote_fault : list event -> string -> Z -> option exn)
        (self : list Z) (model : string) (f : from_date_field.t)
        (chg_date_field add_date_field : string) (w : world) :
  let w' := (_import_from_date now remote_fault self model f chg_date_field
                               add_date_field w).2 in
  clock_reads w' = S (clock_reads w)
  /\ tables w' = tables w
  /\ (exists new, journal w' = journal w ++ new)
  /\ forall id,
      match db w !! id, db w' !! id with
      | Some r, Some r' => same_but f r r'
      | None, None => True
      | _, _ => False
      end.
Proof.
  intros w'. subst w'.
  split; [|split; [|split]]; [| | |intros id; apply pass_rows].
  all: destruct (pass_cases now remote_fault self model f chg_date_field
                            add_date_field w)
    as (new & _ & [(e & ->)|(t & s & _ & _ & _ & ->)]); cbn [snd];
    try reflexivity.
  - now exists new.
  - eexists; reflexivity.
Qed.

Lemma filter_app_length {A} (keep : A -> bool) (l1 l2 : list A) :
  length (List.filter keep (l1 ++ l2))
  = (length (List.filter keep l1) + length (List.filter keep l2))%nat.
Proof. now rewrite List.filter_app, length_app. Qed.

Lemma fetches_count (id : Z) (model add_date_field chg_date_field : string)
      (ws : list (datetime * datetime)) :
  length (List.filter is_delay
            (concat (map (fun win => fetch id model add_date_field win
                                     ++ fetch id model chg_date_field win) ws)))
  = (2 * length ws)%nat
  /\ length (List.filter remote_call
               (concat (map (fun win => fetch id model add_date_field win
                                        ++ fetch id model chg_date_field win) ws)))
     = (2 * length ws)%nat.
Proof.
  induction ws as [|win ws [IH1 IH2]]; [split; reflexivity|].
  cbn [map concat]. rewrite !filter_app_length, IH1, IH2.
  cbn [length]. split; cbn; lia.
Qed.

(** X6.  For a backend that is in the table, whose stored instant
    parses, and whose remote database answers, the pass runs the
    Structure Guard once at the head and once more before each of the two
    fetches of every window: with [n] windows it queues [2n] fetches and
    calls the remote database [1 + 2n] times. *)
Theorem guard_runs_per_window
        (remote_fault : list event -> string -> Z -> option exn)
        (model : string) (f : from_date_field.t)
        (chg_date_field add_date_field : string) (to_date : datetime)
        (id : Z) (r : backend) (from_date : datetime) (w : world) :
  (forall h m b, remote_fault h m b = None) ->
  db w !! id = Some r ->
  Datetime.from_string (resolved f r) = Some from_date ->
  exists new,
    import_backend_from_date remote_fault model f chg_date_field add_date_field
                             to_date id w
    = (Ok tt, log new w)
    /\ length (List.filter is_delay new)
       = (2 * length (windows (import_inverse r) from_date to_date))%nat
    /\ length (List.filter remote_call new)
       = (1 + 2 * length (windows (import_inverse r) from_date to_date))%nat.
Proof.
  intros Hfree Hr Hfrom. eexists. split.
  - apply (import_backend_from_date_run remote_fault Hfree); [exact Hr|].
    now rewrite Hfrom.
  - unfold backend_events. rewrite Hfrom.
    destruct (fetches_count id model add_date_field chg_date_field
                (windows (import_inverse r) from_date to_date)) as [H1 H2].
    cbn [List.filter is_delay remote_call guard_event length].
    rewrite H1, H2. split; lia.
Qed.

Lemma guard_runs_per_window_example :
  exists new,
    import_backend_from_date no_fault "carepoint.medical.patient"
                             from_date_field.patients "chg_date" "add_date"
                             mar15 1 (example_world false)
    = (Ok tt, log new (example_world false))
    /\ length (List.filter is_delay new)
       = (2 * length (windows false jan1 mar15))%nat
    /\ length (List.filter remote_call new)
       = (1 + 2 * length (windows false jan1 mar15))%nat.
Proof.
  apply (guard_runs_per_window no_fault "carepoint.medical.patient"
           from_date_field.patients "chg_date" "add_date" mar15 1
           (row "2020-01-01 00:00:00" None false (Some 1) true true)
           jan1 (example_world false)).
  - reflexivity.
  - vm_compute. reflexivity.
  - vm_compute. reflexivity.
Defined.

(** ** The stored string, read back *)

Lemma first_cycle_in_calendar :
  all_from in_first_cycle (Z.to_nat datetime.DI400Y) 1 = true.
Proof. vm_cast_no_check (eq_refl true). Qed.

Lemma days_in_month_cycle (y m q : Z) :
  datetime.days_in_month (y + 400 * q) m = datetime.days_in_month y m.
Proof. unfold datetime.days_in_month. now rewrite is_leap_cycle. Qed.

(** The date of an ordinal of the years 1..9999 is a date the
    [datetime] constructor accepts. *)
Lemma ord2ymd_valid (n : Z) :
  0 < n <= datetime.MAXORDINAL ->
  let ymd := datetime.ord2ymd n in
  1 <= ymd.1.1 <= 9999
  /\ 1 <= ymd.1.2 <= 12
  /\ 1 <= ymd.2 <= datetime.days_in_month ymd.1.1 ymd.1.2.
Proof.
  intros Hn.
  pose proof (Z.mod_pos_bound (n - 1) datetime.DI400Y ltac:(reflexivity)) as Hr.
  pose proof (Z.div_mod (n - 1) datetime.DI400Y ltac:(discriminate)) as Hq.
  pose proof (all_from_range in_first_cycle datetime.DI400Y 1
                ((n - 1) mod datetime.DI400Y + 1) first_cycle_in_calendar
                ltac:(lia)) as H.
  rewrite ord2ymd_cycle. cbv zeta.
  unfold in_first_cycle in H. cbv zeta in H.
  revert H. generalize (datetime.ord2ymd ((n - 1) mod datetime.DI400Y + 1)).
  intros [[y m] d]. cbn [fst snd]. rewrite days_in_month_cycle.
  rewrite !andb_true_iff, orb_true_iff. intros H.
  unfold datetime.MAXORDINAL, datetime.DI400Y in *.
  assert (0 <= (n - 1) / 146097 <= 24) by (Z.div_mod_to_equations; lia).
  lia.
Qed.

Lemma add_seconds_valid (d t : datetime) (delta : Z) :
  datetime.valid d = true -> datetime.add_seconds d delta = Some t ->
  datetime.valid t = true.
Proof.
  unfold datetime.add_seconds. cbv zeta. intros Hd.
  destruct (_ && _) eqn:Hrange; [|discriminate].
  apply andb_true_iff in Hrange as [H0 H1].
  apply Z.ltb_lt in H0. apply Z.leb_le in H1.
  pose proof (ord2ymd_valid _ (conj H0 H1)) as Hv. cbv zeta in Hv.
  revert Hv.
  generalize (datetime.toordinal d
              + (datetime.hour d * 3600 + datetime.minute d * 60
                 + datetime.second d + delta) / 86400).
  intros n. destruct (datetime.ord2ymd n) as [[y m] dd]. cbn [fst snd].
  intros Hv [= <-]. unfold datetime.valid in *. cbn.
  rewrite !andb_true_iff in *.
  rewrite ?Z.leb_le, ?Z.ltb_lt in *.
  unfold datetime.MINYEAR, datetime.MAXYEAR.
  repeat split; try lia; Z.div_mod_to_equations; lia.
Qed.

Lemma reads_back2_all : all_from reads_back2 (Z.to_nat 100) 0 = true.
Proof. vm_cast_no_check (eq_refl true). Qed.

Lemma reads_back4_all : all_from reads_back4 (Z.to_nat 10000) 0 = true.
Proof. vm_cast_no_check (eq_refl true). Qed.

Lemma number_zfill2 (n : Z) :
  0 <= n < 100 -> Datetime.number_from 0 (Datetime.zfill2 n) = Some n.
Proof.
  intros Hn.
  pose proof (all_from_range reads_back2 100 0 n reads_back2_all ltac:(lia)) as H.
  unfold reads_back2 in H.
  destruct (Datetime.number_from 0 (Datetime.zfill2 n)); [|discriminate].
  apply Z.eqb_eq in H. now subst.
Qed.

Lemma number_zfill4 (n : Z) :
  0 <= n < 10000 -> Datetime.number_from 0 (Datetime.zfill4 n) = Some n.
Proof.
  intros Hn.
  pose proof (all_from_range reads_back4 10000 0 n reads_back4_all ltac:(lia)) as H.
  unfold reads_back4 in H.
  destruct (Datetime.number_from 0 (Datetime.zfill4 n)); [|discriminate].
  apply Z.eqb_eq in H. now subst.
Qed.

Lemma valid_bounds (d : datetime) :
  datetime.valid d = true ->
  1 <= datetime.year d <= 9999 /\ 1 <= datetime.month d <= 12
  /\ 1 <= datetime.day d <= 31
  /\ 0 <= datetime.hour d < 24 /\ 0 <= datetime.minute d < 60
  /\ 0 <= datetime.second d < 60.
Proof.
  unfold datetime.valid, datetime.MINYEAR, datetime.MAXYEAR.
  rewrite !andb_true_iff, ?Z.leb_le, ?Z.ltb_lt. intros H.
  assert (datetime.days_in_month (datetime.year d) (datetime.month d) <= 31).
  { unfold datetime.days_in_month.
    destruct (_ && _); [lia|].
    destruct (datetime.month d) as [|p|p]; cbn; try lia.
    do 5 (try (destruct p as [p|p|]; cbn; try lia)). }
  lia.
Qed.

Lemma valid_replace_microsecond0 (d : datetime) :
  datetime.valid d = true -> datetime.valid (datetime.replace_microsecond0 d) = true.
Proof.
  unfold datetime.valid. cbn. rewrite !andb_true_iff. intuition.
Qed.

(** What [to_string] prints, [from_string] reads back, to the
    second. *)
Lemma from_string_to_string (d : datetime) (s : string) :
  datetime.valid d = true -> Datetime.to_string d = Some s ->
  Datetime.from_string s = Some (datetime.replace_microsecond0 d).
Proof.
  intros Hvalid. pose proof (valid_bounds _ Hvalid) as Hb.
  pose proof (valid_replace_microsecond0 _ Hvalid) as Hv0.
  unfold Datetime.to_string. destruct (_ <? _); [discriminate|]. intros [= <-].
  unfold Datetime.from_string, Datetime.strptime, Datetime.field, Datetime.sep.
  cbv beta iota zeta delta
      [String.append Datetime.zfill4 Datetime.zfill2 substring String.length
       Nat.eqb String.get Ascii.eqb Bool.eqb andb].
  change (String (Datetime.digit (datetime.year d / 1000))
            (String (Datetime.digit (datetime.year d / 100 mod 10))
               (String (Datetime.digit (datetime.year d mod 100 / 10))
                  (String (Datetime.digit ((datetime.year d mod 100) mod 10))
                          EmptyString))))
    with (Datetime.zfill4 (datetime.year d)).
  repeat match goal with
         | |- context [String (Datetime.digit (?n / 10))
                              (String (Datetime.digit (?n mod 10)) EmptyString)] =>
             change (String (Datetime.digit (n / 10))
                            (String (Datetime.digit (n mod 10)) EmptyString))
               with (Datetime.zfill2 n)
         end.
  rewrite number_zfill4 by lia. rewrite !number_zfill2 by lia.
  unfold datetime.replace_microsecond0 in *. now rewrite Hv0.
Qed.

Lemma to_string_not_empty (d : datetime) (s : string) :
  Datetime.to_string d = Some s -> s <> "".
Proof.
  unfold Datetime.to_string. destruct (_ <? _); [discriminate|].
  intros [= <-]. discriminate.
Qed.

Lemma epoch_seconds_replace_microsecond0 (d : datetime) :
  epoch_seconds (datetime.replace_microsecond0 d) = epoch_seconds d.
Proof. reflexivity. Qed.

(** X7.  The string [next_time] makes of a pass start reads back, with
    [from_string], as the instant 30 seconds before that pass start, to
    the second; making it changes nothing. *)
Theorem next_time_reads_back (start : datetime) (s : string) (w w' : world) :
  datetime.valid start = true ->
  next_time start w = (Ok s, w') ->
  w' = w
  /\ exists t,
      Datetime.from_string s = Some t
      /\ datetime.valid t = true
      /\ datetime.microsecond t = 0
      /\ epoch_seconds t = epoch_seconds start - IMPORT_DELTA_BUFFER.
Proof.
  intros Hvalid. unfold next_time.
  destruct (datetime.add_seconds start (- IMPORT_DELTA_BUFFER)) as [t|] eqn:Ht;
    [|discriminate].
  destruct (Datetime.to_string t) as [s'|] eqn:Hs; [|discriminate].
  intros [= <- <-]. split; [reflexivity|].
  pose proof (add_seconds_valid _ _ _ Hvalid Ht) as Hvt.
  exists (datetime.replace_microsecond0 t). repeat split.
  - now apply from_string_to_string.
  - now apply valid_replace_microsecond0.
  - rewrite epoch_seconds_replace_microsecond0, (add_seconds_epoch _ _ _ Ht). lia.
Qed.

Lemma next_time_reads_back_example :
  example_world false = example_world false
  /\ exists t,
      Datetime.from_string "2020-03-14 23:59:30" = Some t
      /\ datetime.valid t = true
      /\ datetime.microsecond t = 0
      /\ epoch_seconds t = epoch_seconds mar15 - IMPORT_DELTA_BUFFER.
Proof.
  apply (next_time_reads_back mar15 "2020-03-14 23:59:30" (example_world false)
                              (example_world false)).
  - reflexivity.
  - vm_compute. reflexivity.
Defined.

(** X8.  After a pass that ended well, every backend of the recordset
    resolves, for the same watermark column, to the instant 30 seconds
    before that pass started: this is where the next pass starts from. *)
Theorem next_pass_starts_at_buffer (now : nat -> datetime)
        (remote_fault : list event -> string -> Z -> option exn)
        (self : list Z) (model : string) (f : from_date_field.t)
        (chg_date_field add_date_field : string) (w w' : world)
        (id : Z) (r' : backend) :
  datetime.valid (now (clock_reads w)) = true ->
  _import_from_date now remote_fault self model f chg_date_field add_date_field w
  = (Ok tt, w') ->
  In id self -> db w' !! id = Some r' ->
  exists t,
    Datetime.from_string (resolved f r') = Some t
    /\ epoch_seconds t
       = epoch_seconds (now (clock_reads w)) - IMPORT_DELTA_BUFFER.
Proof.
  intros Hvalid Hrun Hin Hr'.
  destruct (pass_cases now remote_fault self model f chg_date_field
                       add_date_field w)
    as (new & _ & [(e & He)|(t & s & Ht & Hs & _ & Hok)]); [congruence|].
  rewrite Hok in Hrun. injection Hrun as <-.
  cbn [db after_write] in Hr'. rewrite stored_from_date_lookup in Hr'.
  rewrite bool_decide_eq_true_2 in Hr' by now apply list_elem_of_In.
  destruct (db w !! id) as [r|]; [|discriminate]. injection Hr' as <-.
  exists (datetime.replace_microsecond0 t). split.
  - unfold resolved. rewrite getattr_assign_same. cbn [falsy default].
    rewrite bool_decide_eq_false_2 by (eapply to_string_not_empty; eauto).
    apply from_string_to_string; [|assumption].
    eapply add_seconds_valid; eauto.
  - rewrite epoch_seconds_replace_microsecond0, (add_seconds_epoch _ _ _ Ht). lia.
Qed.

Lemma next_pass_starts_at_buffer_example :
  exists t,
    Datetime.from_string
      (resolved from_date_field.patients
                (row "2020-01-01 00:00:00" (Some "2020-03-14 23:59:30") false
                     (Some 1) true true)) = Some t
    /\ epoch_seconds t = epoch_seconds mar15 - IMPORT_DELTA_BUFFER.
Proof.
  apply (next_pass_starts_at_buffer
           (fun _ => mar15) no_fault [1] "carepoint.medical.patient"
           from_date_field.patients "chg_date" "add_date"
           (example_world false) (example_pass false).2 1
           (row "2020-01-01 00:00:00" (Some "2020-03-14 23:59:30") false
                (Some 1) true true)).
  - reflexivity.
  - vm_compute. reflexivity.
  - now left.
  - vm_compute. reflexivity.
Defined.

(** ** Unfiltered imports: [_import_all] and [import_fdb] *)

(** The Structure Guard of one backend, in any environment: the direct
    import is journalled, and its fault, if any, is the outcome. *)
Lemma guard_outcome (remote_fault : list event -> string -> Z -> option exn)
      (backend : Z) (w : world) :
  check_carepoint_structure remote_fault [backend] w
  = (match remote_fault (journal w) "carepoint.carepoint.store" backend with
     | Some e => Raise e
     | None => Ok true
     end, log [guard_event backend] w).
Proof.
  unfold check_carepoint_structure, synchronize_metadata, bind.
  cbn [for_each]. unfold bind, import_batch_now. cbn.
  now destruct (remote_fault _ _ _).
Qed.

Lemma import_all_cases (remote_fault : list event -> string -> Z -> option exn)
      (self : list Z) (model_name : string) (priority : Z) (w : world) :
  _import_all remote_fault self model_name priority w
  = (Ok tt, log (batch_events model_name priority self) w)
  \/ exists done backend rest e,
       self = done ++ backend :: rest
       /\ remote_fault (journal w ++ batch_events model_name priority done)
                       "carepoint.carepoint.store" backend = Some e
       /\ _import_all remote_fault self model_name priority w
          = (Raise e,
             log (batch_events model_name priority done ++ [guard_event backend]) w).
Proof.
  unfold _import_all. revert w.
  induction self as [|b self IH]; intros w.
  - left. cbn. now rewrite log_nil.
  - cbn [for_each].
    destruct (remote_fault (journal w) "carepoint.carepoint.store" b) as [e|] eqn:Hb.
    + right. exists [], b, self, e. cbn [app batch_events flat_map].
      rewrite app_nil_r. split; [reflexivity|]. split; [exact Hb|].
      apply bind_raise. apply bind_raise.
      now rewrite guard_outcome, Hb.
    + set (w1 := log [guard_event b; delay model_name priority (import_batch b None)] w).
      assert (Hhead :
        (check_carepoint_structure remote_fault [b];;
         emit (delay model_name priority (import_batch b None))) w = (Ok tt, w1)).
      { erewrite bind_ok by (rewrite guard_outcome, Hb; reflexivity).
        unfold emit, w1, log. cbn. now rewrite <- List.app_assoc. }
      rewrite (bind_ok _ _ w tt w1 Hhead).
      destruct (IH w1) as [Hok|(done & b' & rest & e & -> & Hf & Hrun)].
      * left. rewrite Hok. unfold w1. now rewrite log_log.
      * right. exists (b :: done), b', rest, e.
        split; [reflexivity|]. split.
        -- unfold w1 in Hf. cbn [journal log] in Hf.
           rewrite <- List.app_assoc in Hf. exact Hf.
        -- rewrite Hrun. unfold w1. now rewrite log_log.
Qed.

(** X9.  [_import_all] in any environment: either every backend got its
    guard and its unfiltered batch import queued, in order, or the guard
    of one backend failed; then the backends before it are queued, its
    failed guard is the last event, and nothing is queued for it or for
    those after it.  The table and the clock are never touched. *)
Theorem import_all_stops_at_first_fault
        (remote_fault : list event -> string -> Z -> option exn)
        (self : list Z) (model_name : string) (priority : Z) (w : world) :
  exists done new,
    done `prefix_of` self
    /\ (_import_all remote_fault self model_name priority w).2 = log new w
    /\ List.filter is_delay new
       = map (fun id => delay model_name priority (import_batch id None)) done
    /\ match (_import_all remote_fault self model_name priority w).1 with
       | Ok _ => done = self /\ new = batch_events model_name priority self
       | Raise e =>
           exists backend rest,
             self = done ++ backend :: rest
             /\ new = batch_events model_name priority done ++ [guard_event backend]
             /\ remote_fault (journal w ++ batch_events model_name priority done)
                             "carepoint.carepoint.store" backend = Some e
       end.
Proof.
  assert (Hdelays : forall ids,
    List.filter is_delay (batch_events model_name priority ids)
    = map (fun id => delay model_name priority (import_batch id None)) ids).
  { induction ids as [|i ids IH]; [reflexivity|]. cbn. now rewrite <- IH. }
  destruct (import_all_cases remote_fault self model_name priority w)
    as [->|(done & b & rest & e & -> & Hf & ->)].
  - exists self, (batch_events model_name priority self). cbn [fst snd].
    repeat split; [reflexivity|apply Hdelays].
  - exists done, (batch_events model_name priority done ++ [guard_event b]).
    cbn [fst snd]. split; [now exists (b :: rest)|]. split; [reflexivity|]. split.
    + rewrite List.filter_app, Hdelays. cbn. now rewrite app_nil_r.
    + now exists b, rest.
Qed.

Lemma import_all_run (remote_fault : list event -> string -> Z -> option exn)
      (self : list Z) (model_name : string) (priority : Z) (w : world) :
  (forall h m b, remote_fault h m b = None) ->
  _import_all remote_fault self model_name priority w
  = (Ok tt, log (batch_events model_name priority self) w).
Proof.
  intros Hfree.
  destruct (import_all_cases remote_fault self model_name priority w)
    as [H|(done & b & rest & e & _ & Hf & _)]; [exact H|].
  now rewrite Hfree in Hf.
Qed.

(** X10.  With the remote database answering, [import_fdb] returns
    [True] after queueing the whole of the route model for every backend,
    then the form model, then the unit model: three unfiltered batch
    imports per backend, each behind its own guard, and no write. *)
Theorem import_fdb_queues
        (remote_fault : list event -> string -> Z -> option exn)
        (self : list Z) (w : world) :
  (forall h m b, remote_fault h m b = None) ->
  import_fdb remote_fault self w = (Ok true, log (fdb_events self) w)
  /\ length (List.filter is_delay (fdb_events self)) = (3 * length self)%nat
  /\ length (List.filter remote_call (fdb_events self)) = (3 * length self)%nat
  /\ Forall (fun e => is_written e = false) (fdb_events self).
Proof.
  intros Hfree. split; [|split; [|split]].
  - unfold import_fdb, fdb_events.
    rewrite (bind_ok _ _ _ _ _ (import_all_run remote_fault self _ 10 w Hfree)).
    rewrite (bind_ok _ _ _ _ _ (import_all_run remote_fault self _ 10 _ Hfree)).
    rewrite (bind_ok _ _ _ _ _ (import_all_run remote_fault self _ 10 _ Hfree)).
    unfold ret. now rewrite !log_log.
  - unfold fdb_events. rewrite !List.filter_app, !length_app.
    assert (H : forall m, length (List.filter is_delay (batch_events m 10 self))
                          = length self).
    { intros m. induction self as [|i ids IH]; [reflexivity|]. cbn. now rewrite <- IH. }
    rewrite !H. lia.
  - unfold fdb_events. rewrite !List.filter_app, !length_app.
    assert (H : forall m, length (List.filter remote_call (batch_events m 10 self))
                          = length self).
    { intros m. induction self as [|i ids IH]; [reflexivity|]. cbn. now rewrite <- IH. }
    rewrite !H. lia.
  - unfold fdb_events.
    assert (H : forall m, Forall (fun e => is_written e = false)
                                 (batch_events m 10 self)).
    { intros m. induction self as [|i ids IH]; [constructor|].
      cbn. repeat constructor. exact IH. }
    rewrite !Forall_app. auto.
Qed.

Lemma import_fdb_queues_example :
  import_fdb no_fault [1; 2] staggered_world
  = (Ok true, log (fdb_events [1; 2]) staggered_world)
  /\ length (List.filter is_delay (fdb_events [1; 2])) = (3 * length [1; 2])%nat
  /\ length (List.filter remote_call (fdb_events [1; 2])) = (3 * length [1; 2])%nat
  /\ Forall (fun e => is_written e = false) (fdb_events [1; 2]).
Proof.
  apply (import_fdb_queues no_fault [1; 2] staggered_world).
  reflexivity.
Defined.

(** ** The fetch helper *)

(** X11.  The fetch helper treats its two instants as an unordered
    pair: called with the boundaries exchanged it does exactly the same,
    in any environment and for any recordset. *)
Theorem import_from_date_symmetric
        (remote_fault : list event -> string -> Z -> option exn)
        (self : list Z) (model_name : string) (a b : datetime)
        (chg_date_field : string) (priority : Z) :
  __import_from_date remote_fault self model_name a b chg_date_field priority
  = __import_from_date remote_fault self model_name b a chg_date_field priority.
Proof.
  unfold __import_from_date.
  destruct (datetime.ltb b a) eqn:Hba, (datetime.ltb a b) eqn:Hab; try reflexivity.
  - apply ltb_lt in Hab. apply lt_asym in Hab. congruence.
  - destruct (le_cases _ _ (not_ltb_le _ _ Hba)) as [Hlt| ->]; [|reflexivity].
    apply ltb_lt in Hlt. congruence.
Qed.

(** ** The Structure Guard on a recordset *)

Lemma store_import_outcome (remote_fault : list event -> string -> Z -> option exn)
      (backend : Z) (w : world) :
  for_each ["carepoint.carepoint.store"]
           (fun model => import_batch_now remote_fault model backend) w
  = (match remote_fault (journal w) "carepoint.carepoint.store" backend with
     | Some e => Raise e
     | None => Ok tt
     end, log [guard_event backend] w).
Proof.
  cbn [for_each]. unfold bind, import_batch_now. cbn.
  now destruct (remote_fault _ _ _).
Qed.

Lemma store_imports_cases (remote_fault : list event -> string -> Z -> option exn)
      (self : list Z) (w : world) :
  for_each self (fun backend =>
    for_each ["carepoint.carepoint.store"]
             (fun model => import_batch_now remote_fault model backend)) w
  = (Ok tt, log (map guard_event self) w)
  \/ exists done backend rest e,
       self = done ++ backend :: rest
       /\ remote_fault (journal w ++ map guard_event done)
                       "carepoint.carepoint.store" backend = Some e
       /\ for_each self (fun backend =>
            for_each ["carepoint.carepoint.store"]
                     (fun model => import_batch_now remote_fault model backend)) w
          = (Raise e, log (map guard_event (done ++ [backend])) w).
Proof.
  revert w. induction self as [|b self IH]; intros w.
  - left. cbn. now rewrite log_nil.
  - change (for_each (b :: self) ?body)
      with (bind (body b) (fun _ => for_each self body)).
    cbv beta.
    destruct (remote_fault (journal w) "carepoint.carepoint.store" b) as [e|] eqn:Hb.
    + right. exists [], b, self, e. cbn [app map]. rewrite app_nil_r.
      split; [reflexivity|]. split; [exact Hb|].
      apply bind_raise. now rewrite store_import_outcome, Hb.
    + erewrite bind_ok by (rewrite store_import_outcome, Hb; reflexivity).
      destruct (IH (log [guard_event b] w))
        as [Hok|(done & b' & rest & e & -> & Hf & Hrun)].
      * left. rewrite Hok. now rewrite log_log.
      * right. exists (b :: done), b', rest, e.
        split; [reflexivity|]. split.
        -- cbn [journal log] in Hf. rewrite <- List.app_assoc in Hf. exact Hf.
        -- rewrite Hrun. now rewrite log_log.
Qed.

(** X17.  The Structure Guard on a recordset imports the store metadata
    of its backends one by one, directly and in order, and returns
    [True]; the first import that fails ends it with that error, the
    backends after it are not contacted.  It never returns [False] and
    never queues or writes anything. *)
Theorem guard_stops_at_first_fault
        (remote_fault : list event -> string -> Z -> option exn)
        (self : list Z) (w : world) :
  check_carepoint_structure remote_fault self w
  = (Ok true, log (map guard_event self) w)
  \/ exists done backend rest e,
       self = done ++ backend :: rest
       /\ remote_fault (journal w ++ map guard_event done)
                       "carepoint.carepoint.store" backend = Some e
       /\ check_carepoint_structure remote_fault self w
          = (Raise e, log (map guard_event (done ++ [backend])) w).
Proof.
  unfold check_carepoint_structure, synchronize_metadata.
  destruct (store_imports_cases remote_fault self w)
    as [Hok|(done & b & rest & e & -> & Hf & Hrun)].
  - left. erewrite bind_ok; [reflexivity|].
    erewrite bind_ok by exact Hok. reflexivity.
  - right. exists done, b, rest, e. split; [reflexivity|]. split; [exact Hf|].
    apply bind_raise. apply bind_raise. exact Hrun.
Qed.

(** ** Writes that the constraint does not see *)

(** X12.  The constraint is declared on [is_default] and [company_id]
    only, so a write of [active] alone never runs it: un-archiving a
    default backend of a company that has another active default is
    accepted, and leaves the company with two active defaults. *)
Theorem unarchive_skips_constraint (a b : Z) (ra rb : backend) (c : option Z)
        (w : world) :
  db w !! a = Some ra -> db w !! b = Some rb -> a <> b ->
  company_id ra = c -> is_default ra = true ->
  active_default c rb ->
  exists w',
    write [a] [set_active true] w = (Ok tt, w')
    /\ db w' !! a = Some (assign (set_active true) ra)
    /\ (forall id, id <> a -> db w' !! id = db w !! id)
    /\ ~ one_active_default (db w') c.
Proof.
  intros Ha Hb Hab Hc Hd Hrb.
  assert (Hwrite : write [a] [set_active true] w
                   = (Ok tt, {| db := stored [a] [set_active true] (db w);
                                tables := tables w;
                                journal := journal w ++ [written [a] [set_active true]];
                                clock_reads := clock_reads w |})).
  { unfold write, missing. cbn [find].
    rewrite bool_decide_eq_false_2 by (rewrite Ha; discriminate).
    reflexivity. }
  eexists. split; [exact Hwrite|]. cbn [db stored foldr].
  assert (Hrow : alter (assign_all [set_active true]) a (db w) !! a
                 = Some (assign (set_active true) ra))
    by (now rewrite lookup_alter_eq, Ha).
  assert (Hrest : forall id, id <> a ->
                    alter (assign_all [set_active true]) a (db w) !! id = db w !! id)
    by (intros id Hid; now rewrite lookup_alter_ne).
  split; [exact Hrow|]. split; [exact Hrest|].
  intros Hone. apply Hab.
  apply (Hone a b (assign (set_active true) ra) rb Hrow).
  - rewrite Hrest by congruence. exact Hb.
  - repeat split; [exact Hc|exact Hd].
  - exact Hrb.
Qed.

Lemma unarchive_skips_constraint_example :
  exists w',
    write [1] [set_active true] archived_twin = (Ok tt, w')
    /\ db w' !! 1
       = Some (assign (set_active true)
                      (row "2020-01-01 00:00:00" None false (Some 1) true false))
    /\ (forall id, id <> 1 -> db w' !! id = db archived_twin !! id)
    /\ ~ one_active_default (db w') (Some 1).
Proof.
  apply (unarchive_skips_constraint 1 2
           (row "2020-01-01 00:00:00" None false (Some 1) true false)
           (row "2020-01-01 00:00:00" None false (Some 1) true true)
           (Some 1) archived_twin).
  - vm_compute. reflexivity.
  - vm_compute. reflexivity.
  - lia.
  - reflexivity.
  - reflexivity.
  - repeat split.
Defined.

(** ** The import methods and their scheduled entry points *)

Lemma bind_ret_world {A B} (m : M A) (b : B) (w : world) :
  (bind m (fun _ => ret b) w).2 = (m w).2.
Proof. unfold bind, ret. now destruct (m w) as [[x|e] w1]. Qed.

Lemma bind_ret_ok {A B} (m : M A) (b b' : B) (w w' : world) :
  bind m (fun _ => ret b) w = (Ok b', w') -> exists x, m w = (Ok x, w').
Proof.
  unfold bind, ret. destruct (m w) as [[x|e] w1]; [|discriminate].
  intros [= _ <-]. now exists x.
Qed.

Lemma import_methods_pass (now : nat -> datetime)
      (remote_fault : list event -> string -> Z -> option exn)
      (f : from_date_field.t) (run : list Z -> M unit) :
  In (f, run) (import_methods now remote_fault) ->
  exists model chg_date_field add_date_field,
    forall self w,
      (run self w).2
      = (_import_from_date now remote_fault self model f chg_date_field
                           add_date_field w).2.
Proof.
  unfold import_methods. cbn [In].
  intros H. repeat (destruct H as [[= <- <-]|H]); [..|contradiction];
    do 3 eexists; intros self w;
    unfold discard, import_carepoint_item, import_medical_patient,
      import_medical_physician, import_medical_prescription, import_sale_order,
      import_stock_picking, import_account_invoice, import_address, import_phone;
    rewrite ?bind_ret_world; reflexivity.
Qed.

(** X13.  The nine import methods are given nine different watermark
    columns, and a run of one of them, however it ends, leaves every
    other watermark column of every backend as it was. *)
Theorem import_methods_independent (now : nat -> datetime)
        (remote_fault : list event -> string -> Z -> option exn)
        (f g : from_date_field.t) (run : list Z -> M unit)
        (self : list Z) (w : world) (id : Z) (r r' : backend) :
  In (f, run) (import_methods now remote_fault) -> f <> g ->
  db w !! id = Some r -> db (run self w).2 !! id = Some r' ->
  List.NoDup (map fst (import_methods now remote_fault))
  /\ getattr r' g = getattr r g.
Proof.
  intros Hin Hfg Hr Hr'. split.
  - cbn. repeat (constructor; [cbn; intuition discriminate|]). constructor.
  - destruct (import_methods_pass now remote_fault f run Hin)
      as (model & chg & add & Hrun).
    rewrite Hrun in Hr'.
    pose proof (pass_rows now remote_fault self model f chg add w id) as Hrows.
    rewrite Hr, Hr' in Hrows. destruct Hrows as [Hcols _]. now apply Hcols.
Qed.

Lemma import_methods_independent_example :
  List.NoDup (map fst (import_methods (fun _ => mar15) no_fault))
  /\ getattr (row "2020-01-01 00:00:00" (Some "2020-03-14 23:59:30") false
                  (Some 1) true true) from_date_field.items
     = getattr (row "2020-01-01 00:00:00" None false (Some 1) true true)
               from_date_field.items.
Proof.
  apply (import_methods_independent (fun _ => mar15) no_fault
           from_date_field.patients from_date_field.items
           (fun self => discard (import_medical_patient (fun _ => mar15) no_fault self))
           [1] (example_world false) 1
           (row "2020-01-01 00:00:00" None false (Some 1) true true)
           (row "2020-01-01 00:00:00" (Some "2020-03-14 23:59:30") false
                (Some 1) true true)).
  - right. left. reflexivity.
  - discriminate.
  - vm_compute. reflexivity.
  - vm_compute. reflexivity.
Defined.

(** [self.search([])] finds the active backends. *)
Lemma search_all_active (table : gmap Z backend) (id : Z) :
  In id (map fst (selected [] table))
  <-> exists r, table !! id = Some r /\ active r = true.
Proof.
  unfold selected, where_calc. cbn [existsb].
  rewrite in_map_iff. split.
  - intros ([i r] & <- & Hin).
    rewrite filter_In, <- list_elem_of_In, elem_of_map_to_list in Hin.
    cbn [forallb holds snd] in Hin. destruct Hin as [Hr Hact].
    exists r. split; [exact Hr|]. now destruct (active r).
  - intros (r & Hr & Hact). exists (id, r). split; [reflexivity|].
    rewrite filter_In, <- list_elem_of_In, elem_of_map_to_list.
    cbn [forallb holds snd]. now rewrite Hact.
Qed.

Lemma cron_methods_pass (now : nat -> datetime)
      (remote_fault : list event -> string -> Z -> option exn)
      (f : from_date_field.t) (run : M unit) :
  In (f, run) (cron_methods now remote_fault) ->
  exists model chg_date_field add_date_field,
    forall w w',
      run w = (Ok tt, w') ->
      _import_from_date now remote_fault (map fst (selected [] (db w))) model f
                        chg_date_field add_date_field w
      = (Ok tt, w').
Proof.
  unfold cron_methods. cbn [In].
  intros H. repeat (destruct H as [[= <- <-]|H]); [..|contradiction];
    do 3 eexists; intros w w';
    unfold cron_import_medical_patient, cron_import_medical_physician,
      cron_import_medical_prescription, cron_import_sale_order,
      cron_import_address, cron_import_phone,
      import_medical_patient, import_medical_physician,
      import_medical_prescription, import_sale_order, import_address,
      import_phone;
    (rewrite (bind_ok (search []) _ w (map fst (selected [] (db w))) w)
      by reflexivity);
    intros Hrun;
    repeat (apply bind_ret_ok in Hrun; destruct Hrun as [[] Hrun]);
    exact Hrun.
Qed.

(** X14.  A scheduled import that ends well has worked on the active
    backends only: each active backend holds the new watermark in the
    column of that import, each archived backend is exactly as it was,
    and every import journalled is for an active backend. *)
Theorem cron_active_only (now : nat -> datetime)
        (remote_fault : list event -> string -> Z -> option exn)
        (f : from_date_field.t) (run : M unit) (w w' : world) :
  In (f, run) (cron_methods now remote_fault) ->
  run w = (Ok tt, w') ->
  exists s new,
    journal w' = journal w ++ new
    /\ (forall id r, db w !! id = Some r ->
          db w' !! id
          = Some (if active r then assign (set_from_date f (Some s)) r else r))
    /\ (forall e b, In e new -> event_backend e = Some b ->
          exists r, db w !! b = Some r /\ active r = true).
Proof.
  intros Hin Hrun.
  destruct (cron_methods_pass now remote_fault f run Hin)
    as (model & chg & add & Hpass).
  apply Hpass in Hrun. clear Hpass.
  set (self := map fst (selected [] (db w))) in *.
  destruct (pass_cases now remote_fault self model f chg add w)
    as (new & Hnew & [(e & He)|(t & s & _ & _ & _ & Hok)]);
    [rewrite He in Hrun; discriminate|].
  rewrite Hok in Hrun. injection Hrun as <-.
  exists s, (new ++ [written self [set_from_date f (Some s)]]).
  cbn [journal db after_write]. split; [reflexivity|]. split.
  - intros id r Hr. rewrite stored_from_date_lookup, Hr. cbn [fmap option_fmap option_map].
    destruct (active r) eqn:Hact.
    + rewrite bool_decide_eq_true_2; [reflexivity|].
      apply list_elem_of_In, search_all_active. now exists r.
    + rewrite bool_decide_eq_false_2; [reflexivity|].
      rewrite list_elem_of_In. intros Hself.
      apply search_all_active in Hself. destruct Hself as (r0 & Hr0 & Hact0).
      congruence.
  - intros e b He Hb. apply in_app_or in He. destruct He as [He|[<-|[]]].
    + rewrite Forall_forall in Hnew.
      destruct (Hnew e) as (_ & _ & Hids); [now apply list_elem_of_In|].
      now apply search_all_active, Hids.
    + discriminate.
Qed.

Lemma cron_active_only_example :
  exists s new,
    journal (cron_import_medical_patient (fun _ => mar15) no_fault
               (two_backends false)).2
    = journal (two_backends false) ++ new
    /\ (forall id r, db (two_backends false) !! id = Some r ->
          db (cron_import_medical_patient (fun _ => mar15) no_fault
                (two_backends false)).2 !! id
          = Some (if active r
                  then assign (set_from_date from_date_field.patients (Some s)) r
                  else r))
    /\ (forall e b, In e new -> event_backend e = Some b ->
          exists r, db (two_backends false) !! b = Some r /\ active r = true).
Proof.
  apply (cron_active_only (fun _ => mar15) no_fault from_date_field.patients
           (cron_import_medical_patient (fun _ => mar15) no_fault)
           (two_backends false)
           (cron_import_medical_patient (fun _ => mar15) no_fault
              (two_backends false)).2).
  - left. reflexivity.
  - vm_compute. reflexivity.
Defined.

(** ** The zip mapping of the address import *)

Section Strip.

Import CarepointAddressImportMapper.

Variable isspace : ascii -> bool.

Lemma lstrip_head (s : list ascii) (c : ascii) (t : list ascii) :
  lstrip isspace s = c :: t -> isspace c = false.
Proof.
  induction s as [|x s IH]; cbn; [discriminate|].
  destruct (isspace x) eqn:Hx; [exact IH|]. now intros [= <- _].
Qed.

Lemma lstrip_idem (s : list ascii) :
  lstrip isspace (lstrip isspace s) = lstrip isspace s.
Proof.
  induction s as [|x s IH]; cbn; [reflexivity|].
  destruct (isspace x) eqn:Hx; [exact IH|]. cbn. now rewrite Hx.
Qed.

Lemma lstrip_snoc (l : list ascii) (c : ascii) :
  isspace c = false -> lstrip isspace (l ++ [c]) = lstrip isspace l ++ [c].
Proof.
  intros Hc. induction l as [|x l IH]; cbn; [now rewrite Hc|].
  now destruct (isspace x).
Qed.

Lemma lstrip_nil (s : list ascii) : lstrip isspace s = [] <-> blank isspace s.
Proof.
  unfold blank. induction s as [|x s IH]; cbn.
  - split; [constructor|reflexivity].
  - destruct (isspace x) eqn:Hx.
    + rewrite IH. split; [now constructor|now inversion 1].
    + split; [discriminate|]. inversion 1; congruence.
Qed.

Lemma clean_cons (c : ascii) (s : list ascii) :
  isspace c = false -> clean isspace (c :: s).
Proof. unfold clean. cbn. now intros ->. Qed.

Lemma clean_app (s t : list ascii) :
  clean isspace s -> s <> [] -> clean isspace (s ++ t).
Proof.
  destruct s as [|c s]; [congruence|]. intros Hs _.
  apply clean_cons. exact (lstrip_head _ _ _ Hs).
Qed.

Lemma strip_fixed (s : list ascii) :
  clean isspace s -> clean isspace (rev s) -> strip isspace s = s.
Proof.
  unfold clean, strip, rstrip. intros -> ->. apply rev_involutive.
Qed.

Lemma strip_clean (s : list ascii) :
  clean isspace (strip isspace s) /\ clean isspace (rev (strip isspace s)).
Proof.
  unfold strip, rstrip. split.
  - destruct (lstrip isspace s) as [|c t] eqn:Hs; [reflexivity|].
    cbn [rev]. rewrite lstrip_snoc by exact (lstrip_head _ _ _ Hs).
    rewrite rev_app_distr. cbn. apply clean_cons. exact (lstrip_head _ _ _ Hs).
  - rewrite rev_involutive. apply lstrip_idem.
Qed.

Lemma strip_nil (s : list ascii) : strip isspace s = [] <-> blank isspace s.
Proof.
  unfold strip, rstrip. split.
  - intros H. apply (f_equal (@rev ascii)) in H. rewrite rev_involutive in H.
    cbn in H. apply lstrip_nil in H. unfold blank in H.
    apply Forall_rev in H. rewrite rev_involutive in H.
    apply lstrip_nil.
    destruct (lstrip isspace s) as [|c t] eqn:Hs; [reflexivity|].
    apply lstrip_head in Hs. inversion H; congruence.
  - intros H. apply lstrip_nil in H. now rewrite H.
Qed.

End Strip.

(** X16.  The zip code the address mapper stores, provided the dash is
    not itself whitespace: it has no whitespace at either end, mapping it
    again with an empty extension gives it back, and it is the stripped
    zip alone exactly when the extension column is blank. *)
Theorem zip_trimmed (isspace : ascii -> bool) (zip_plus4 _zip : list ascii) :
  isspace "-"%char = false ->
  let mapped := CarepointAddressImportMapper.zip isspace zip_plus4 _zip in
  CarepointAddressImportMapper.strip isspace mapped = mapped
  /\ CarepointAddressImportMapper.zip isspace [] mapped = mapped
  /\ (mapped = CarepointAddressImportMapper.strip isspace _zip
      <-> blank isspace zip_plus4).
Proof.
  intros Hdash mapped.
  assert (Hfix : CarepointAddressImportMapper.strip isspace mapped = mapped).
  { subst mapped. unfold CarepointAddressImportMapper.zip.
    destruct (strip_clean isspace zip_plus4) as [Hp Hp'].
    destruct (strip_clean isspace _zip) as [Hz Hz'].
    destruct (CarepointAddressImportMapper.strip isspace zip_plus4) as [|c p] eqn:Ep.
    - now apply strip_fixed.
    - apply strip_fixed.
      + destruct (CarepointAddressImportMapper.strip isspace _zip) as [|d z].
        * now apply clean_cons.
        * apply (clean_app isspace (d :: z)); [exact Hz|discriminate].
      + rewrite rev_app_distr.
        change (rev ("-"%char :: c :: p)) with (rev (c :: p) ++ ["-"%char]).
        rewrite <- List.app_assoc.
        apply clean_app; [exact Hp'|].
        cbn [rev]. now destruct (rev p). }
  split; [exact Hfix|]. split.
  - unfold CarepointAddressImportMapper.zip at 1. cbn. exact Hfix.
  - subst mapped. unfold CarepointAddressImportMapper.zip.
    rewrite <- (strip_nil isspace zip_plus4).
    destruct (CarepointAddressImportMapper.strip isspace zip_plus4) as [|c p].
    + tauto.
    + split; [|discriminate]. intros H.
      apply (f_equal (@length ascii)) in H. rewrite length_app in H.
      cbn in H. lia.
Qed.

Lemma zip_trimmed_example :
  let mapped := CarepointAddressImportMapper.zip str_isspace
                  (list_ascii_of_string " 6789 ")
                  (list_ascii_of_string "12345  ") in
  CarepointAddressImportMapper.strip str_isspace mapped = mapped
  /\ CarepointAddressImportMapper.zip str_isspace [] mapped = mapped
  /\ (mapped = CarepointAddressImportMapper.strip str_isspace
                 (list_ascii_of_string "12345  ")
      <-> blank str_isspace (list_ascii_of_string " 6789 ")).
Proof.
  apply (zip_trimmed str_isspace (list_ascii_of_string " 6789 ")
           (list_ascii_of_string "12345  ")).
  reflexivity.
Defined.
